(** * Cache-consistency patterns: write-behind, write-through, refresh-ahead

    A shallow embedding of the three services of [caching-patterns/]
    that mutate a Redis cache next to a PostgreSQL [users] table:

    - [write_behind/main.py]   (module [WriteBehind]),
    - [write_through/main.py]  (module [WriteThrough]),
    - [refresh_ahead/main.py]  (module [RefreshAhead]).

    Conventions of the embedding.

    - A Python [int] is a [Z]; counters kept in the module-level stats
      dictionaries are [Z] as well.
    - Every cache key of the services has the shape [f"user:{user_id}"];
      the formatting is injective on integers, so a key is represented by
      its [user_id], and [int(item_key.split(":")[1])] is the identity.
    - The value stored under a key is [json.dumps(user.model_dump())] and
      is read back with [json.loads] into a [User]; the round trip is the
      identity on [User], so the cache holds the [User] itself, next to
      its remaining lifetime in seconds.
    - Redis is taken to be reliable.  PostgreSQL is fallible: a statement
      raises because the schedule of injected faults says so, because
      an integer argument does not fit the 32-bit column it is bound to
      (the services pass unbounded Python integers on), or because it
      violates a uniqueness constraint of the table.
    - [await] is sequencing: a coroutine runs to completion before the
      next one starts. *)

From stdpp Require Import gmap strings list fin_maps.
From Stdlib Require Import ZArith Lia.

Local Open Scope Z_scope.

(** ** Exceptions and outcomes *)

Inductive exn : Type :=
  | PostgresError      (* injected failure of the durable store *)
  | DataError          (* asyncpg.DataError: an argument out of range *)
  | UniqueViolation    (* asyncpg.UniqueViolationError *)
  | KeyError.          (* a missing key of a queued dictionary *)

Inductive outcome (A : Type) : Type :=
  | Ok (a : A)
  | Raised (e : exn).
Arguments Ok {A} a.
Arguments Raised {A} e.

Definition is_raised {A} (o : outcome A) : bool :=
  match o with Ok _ => false | Raised _ => true end.

(** What an HTTP handler gives back: a status with a body, or an
    [HTTPException] with its status code. *)
Inductive response (A : Type) : Type :=
  | Reply (status : Z) (body : A)
  | HTTPException (status : Z).
Arguments Reply {A} status body.
Arguments HTTPException {A} status.

(** An exception that escapes a handler is answered with status 500. *)
Definition internal_server_error {A} : response A := HTTPException 500.

(** ** The [User] model (pydantic), shared by the three services *)

Record User : Type := mkUser {
  user_id : option Z;        (* id: Optional[int] = None *)
  user_name : string;
  user_email : string;
  user_age : Z
}.

Definition with_id (i : Z) (u : User) : User :=
  mkUser (Some i) (user_name u) (user_email u) (user_age u).

(** ** The durable store: table [users] of PostgreSQL *)

Module Pg.

Record Row : Type := mkRow {
  row_id : Z;
  row_name : string;
  row_email : string;
  row_age : Z
}.

(** [users] in insertion order, the sequence behind the [id] column,
    and the schedule of injected faults: each statement consumes the
    head of [faults] and raises when it is [true]; an exhausted
    schedule injects nothing. *)
Record t : Type := mk {
  users : list Row;
  users_id_seq : Z;
  faults : list bool
}.

Definition set_users (rs : list Row) (pg : t) : t :=
  mk rs (users_id_seq pg) (faults pg).
Definition set_faults (fs : list bool) (pg : t) : t :=
  mk (users pg) (users_id_seq pg) fs.
Definition bump_seq (pg : t) : t :=
  mk (users pg) (users_id_seq pg + 1) (faults pg).

(** The columns [id] and [age] are 32-bit integers: binding an argument
    outside this range raises [DataError] and nothing is executed. *)
Definition int4 (z : Z) : bool := (-2147483648 <=? z) && (z <=? 2147483647).

Definition has_id (i : Z) (r : Row) : bool := row_id r =? i.
Definition has_email (e : string) (r : Row) : bool := String.eqb (row_email r) e.

(** [User(id=row["id"], name=row["name"], email=row["email"], age=row["age"])] *)
Definition user_of_row (r : Row) : User :=
  mkUser (Some (row_id r)) (row_name r) (row_email r) (row_age r).

(** Every statement goes through the connection, which may fail. *)
Definition statement {A} (body : t -> outcome A * t) (pg : t) : outcome A * t :=
  match faults pg with
  | true :: fs => (Raised PostgresError, set_faults fs pg)
  | false :: fs => body (set_faults fs pg)
  | [] => body pg
  end.

(** [SELECT id, name, email, age FROM users WHERE id = $1] *)
Definition select_by_id (i : Z) : t -> outcome (option Row) * t :=
  statement (fun pg =>
    if int4 i
    then (Ok (find (has_id i) (users pg)), pg)
    else (Raised DataError, pg)).

(** [INSERT INTO users (name, email, age) VALUES ($1, $2, $3)
     RETURNING id, name, email, age].  The id comes from the sequence,
    which advances whether or not the insertion succeeds. *)
Definition insert_returning (n e : string) (a : Z) : t -> outcome Row * t :=
  statement (fun pg =>
    if int4 a then
      let i := users_id_seq pg in
      let pg := bump_seq pg in
      if existsb (has_email e) (users pg) || existsb (has_id i) (users pg)
      then (Raised UniqueViolation, pg)
      else let r := mkRow i n e a in
           (Ok r, set_users (users pg ++ [r]) pg)
    else (Raised DataError, pg)).

(** [DO UPDATE SET name = EXCLUDED.name, age = EXCLUDED.age], on the
    row that holds the email already. *)
Definition do_update (n e : string) (a : Z) (r : Row) : Row :=
  if has_email e r then mkRow (row_id r) n (row_email r) a else r.

(** [INSERT INTO users (name, email, age) VALUES ($1, $2, $3)
     ON CONFLICT (email) DO UPDATE
     SET name = EXCLUDED.name, age = EXCLUDED.age].
    The sequence advances before the conflict is detected. *)
Definition upsert_by_email (n e : string) (a : Z) : t -> outcome unit * t :=
  statement (fun pg =>
    if int4 a then
      let i := users_id_seq pg in
      let pg := bump_seq pg in
      if existsb (has_email e) (users pg)
      then (Ok tt, set_users (map (do_update n e a) (users pg)) pg)
      else if existsb (has_id i) (users pg)
      then (Raised UniqueViolation, pg)
      else (Ok tt, set_users (users pg ++ [mkRow i n e a]) pg)
    else (Raised DataError, pg)).

(** [UPDATE users SET name = $1, email = $2, age = $3,
     updated_at = CURRENT_TIMESTAMP WHERE id = $4
     (RETURNING id, name, email, age)].
    A [None] identity is SQL [NULL] and matches no row.  The column
    [updated_at] is never read by the services and is left out. *)
Definition update_by_id (n e : string) (a : Z) (oi : option Z)
  : t -> outcome (option Row) * t :=
  statement (fun pg =>
    if int4 a then
      match oi with
      | None => (Ok None, pg)
      | Some i =>
        if int4 i then
          if existsb (has_id i) (users pg)
          then if existsb (fun r => has_email e r && negb (has_id i r)) (users pg)
               then (Raised UniqueViolation, pg)
               else let r' := mkRow i n e a in
                    (Ok (Some r'),
                     set_users (map (fun r => if has_id i r then r' else r) (users pg)) pg)
          else (Ok None, pg)
        else (Raised DataError, pg)
      end
    else (Raised DataError, pg)).

(** [DELETE FROM users WHERE id = $1]; the result is the number of
    deleted rows (the status string is ["DELETE n"]); a [None] identity
    matches no row. *)
Definition delete_by_id (oi : option Z) : t -> outcome nat * t :=
  statement (fun pg =>
    match oi with
    | None => (Ok 0%nat, pg)
    | Some i =>
      if int4 i then
        let gone := List.filter (has_id i) (users pg) in
        (Ok (length gone),
         set_users (List.filter (fun r => negb (has_id i r)) (users pg)) pg)
      else (Raised DataError, pg)
    end).




End Pg.

(** ** The cache: string keys of Redis with a lifetime *)

Module Redis.

(** [user:{id}] to the cached [User] and its remaining seconds. *)
Abbreviation keyspace := (gmap Z (User * Z)).

(** [GET key] *)
Definition get (k : Z) (m : keyspace) : option User := fst <$> m !! k.

(** [SETEX key seconds value] *)
Definition setex (k : Z) (seconds : Z) (u : User) (m : keyspace) : keyspace :=
  <[k := (u, seconds)]> m.

(** [DEL key] *)
Definition del (k : Z) (m : keyspace) : keyspace := delete k m.

(** [TTL key]: the remaining seconds, [-2] when the key does not exist. *)
Definition ttl (k : Z) (m : keyspace) : Z :=
  match m !! k with
  | Some (_, seconds) => seconds
  | None => -2
  end.

(** The passing of [s] seconds: lifetimes shrink, and a key whose
    lifetime is used up is evicted. *)
Definition elapse (s : Z) (m : keyspace) : keyspace :=
  omap (fun '(u, seconds) =>
          if 0 <? seconds - s then Some (u, seconds - s) else None) m.

End Redis.

(** The cache reflects the store: every cached user is the row the
    table holds under that identity. *)
Definition coherent (m : Redis.keyspace) (pg : Pg.t) : Prop :=
  forall (k : Z) (u : User),
    Redis.get k m = Some u ->
    exists row, find (Pg.has_id k) (Pg.users pg) = Some row /\ Pg.user_of_row row = u.

(** ** [write_behind/main.py] *)

Module WriteBehind.

Definition CACHE_TTL : Z := 600.
Definition BATCH_SIZE : nat := 10.

Inductive Operation : Type := Create | Update | Delete.

(** The dictionary under ["user"] of a queued write: the dump of the
    whole model, or the one-key dictionary of a delete. *)
Inductive UserData : Type :=
  | model_dump (u : User)     (* user.model_dump() *)
  | id_only (i : Z).          (* {"id": user_id} *)

Record Write : Type := mkWrite {
  operation : Operation;
  user : UserData;
  timestamp : Z
}.

Record WriteStats : Type := mkStats {
  cached_writes : Z;
  db_flushes : Z;
  pending_writes : Z;
  last_flush : option Z
}.

(** Redis database 3, the table, the stats dictionary, the wall clock
    read by [datetime.now()], and what [logger.error] has recorded. *)
Record World : Type := mkWorld {
  redis : Redis.keyspace;
  user_id_counter : Z;
  write_queue : list Write;
  db : Pg.t;
  write_stats : WriteStats;
  now : Z;
  errors : list exn
}.

Definition set_redis (m : Redis.keyspace) (w : World) : World :=
  mkWorld m (user_id_counter w) (write_queue w) (db w) (write_stats w) (now w) (errors w).
Definition set_user_id_counter (c : Z) (w : World) : World :=
  mkWorld (redis w) c (write_queue w) (db w) (write_stats w) (now w) (errors w).
Definition set_write_queue (q : list Write) (w : World) : World :=
  mkWorld (redis w) (user_id_counter w) q (db w) (write_stats w) (now w) (errors w).
Definition set_db (pg : Pg.t) (w : World) : World :=
  mkWorld (redis w) (user_id_counter w) (write_queue w) pg (write_stats w) (now w) (errors w).
Definition set_write_stats (s : WriteStats) (w : World) : World :=
  mkWorld (redis w) (user_id_counter w) (write_queue w) (db w) s (now w) (errors w).
Definition log_error (e : exn) (w : World) : World :=
  mkWorld (redis w) (user_id_counter w) (write_queue w) (db w) (write_stats w) (now w)
          (errors w ++ [e]).

(** [RPUSH write_queue item] and [LLEN write_queue] *)
Definition rpush (item : Write) (w : World) : World :=
  set_write_queue (write_queue w ++ [item]) w.
Definition llen (w : World) : Z := Z.of_nat (length (write_queue w)).

(** [write_stats["cached_writes"] += 1] followed by
    [write_stats["pending_writes"] = await self.redis.llen(...)] *)
Definition count_cached_write (w : World) : World :=
  let s := write_stats w in
  set_write_stats (mkStats (cached_writes s + 1) (db_flushes s) (llen w) (last_flush s)) w.

(** [write_stats["db_flushes"] += 1] *)
Definition count_db_flush (w : World) : World :=
  let s := write_stats w in
  set_write_stats
    (mkStats (cached_writes s) (db_flushes s + 1) (pending_writes s) (last_flush s)) w.

(** [write_stats["last_flush"] = datetime.now().isoformat()] followed by
    [write_stats["pending_writes"] = await self.redis.llen(...)] *)
Definition record_flush (w : World) : World :=
  let s := write_stats w in
  set_write_stats
    (mkStats (cached_writes s) (db_flushes s) (llen w) (Some (now w))) w.

Module WriteBehindCache.

(** The loop [for _ in range(BATCH_SIZE)] around [LPOP]: the popped
    writes and what stays in the queue. *)
Fixpoint lpop_batch (n : nat) (q : list Write) : list Write * list Write :=
  match n, q with
  | S n', data :: q' =>
      let '(writes, rest) := lpop_batch n' q' in (data :: writes, rest)
  | _, _ => ([], q)
  end.

(** The body of the [try] for one write, up to the statement. *)
Definition apply_write (write : Write) (pg : Pg.t) : outcome unit * Pg.t :=
  match operation write, user write with
  | Create, model_dump u =>
      Pg.upsert_by_email (user_name u) (user_email u) (user_age u) pg
  | Update, model_dump u =>
      let '(r, pg') :=
        Pg.update_by_id (user_name u) (user_email u) (user_age u) (user_id u) pg in
      (match r with Ok _ => Ok tt | Raised e => Raised e end, pg')
  | Delete, model_dump u =>
      let '(r, pg') := Pg.delete_by_id (user_id u) pg in
      (match r with Ok _ => Ok tt | Raised e => Raised e end, pg')
  | Delete, id_only i =>
      let '(r, pg') := Pg.delete_by_id (Some i) pg in
      (match r with Ok _ => Ok tt | Raised e => Raised e end, pg')
  | Create, id_only _ | Update, id_only _ =>
      (Raised KeyError, pg)       (* user_data["name"] *)
  end.

(** [for write in writes: try ... except ...] *)
Fixpoint process_writes (writes : list Write) (w : World) : World :=
  match writes with
  | [] => w
  | write :: writes' =>
      let '(r, pg') := apply_write write (db w) in
      let w := set_db pg' w in
      match r with
      | Ok _ => process_writes writes' (count_db_flush w)
      | Raised e =>
          process_writes writes' (rpush write (log_error e w))
      end
  end.

Definition _flush_to_database (w : World) : World :=
  let '(writes, rest) := lpop_batch BATCH_SIZE (write_queue w) in
  let w := set_write_queue rest w in
  match writes with
  | [] => w
  | _ :: _ => record_flush (process_writes writes w)
  end.

Definition get_user (user_id : Z) (w : World) : outcome (option User) * World :=
  let cache_key := user_id in
  match Redis.get cache_key (redis w) with
  | Some cached => (Ok (Some cached), w)
  | None =>
      let '(r, pg') := Pg.select_by_id user_id (db w) in
      let w := set_db pg' w in
      match r with
      | Raised e => (Raised e, w)
      | Ok None => (Ok None, w)
      | Ok (Some row) =>
          let user := Pg.user_of_row row in
          (Ok (Some user),
           set_redis (Redis.setex cache_key CACHE_TTL user (redis w)) w)
      end
  end.

Definition create_user (user : User) (w : World) : User * World :=
  let i := user_id_counter w + 1 in               (* INCR user_id_counter *)
  let w := set_user_id_counter i w in
  let user := with_id i user in
  let cache_key := i in
  let w := set_redis (Redis.setex cache_key CACHE_TTL user (redis w)) w in
  let write_operation := mkWrite Create (model_dump user) (now w) in
  let w := rpush write_operation w in
  (user, count_cached_write w).

Definition update_user (user_id : Z) (user : User) (w : World) : User * World :=
  let user := with_id user_id user in
  let cache_key := user_id in
  let w := set_redis (Redis.setex cache_key CACHE_TTL user (redis w)) w in
  let write_operation := mkWrite Update (model_dump user) (now w) in
  let w := rpush write_operation w in
  (user, count_cached_write w).

Definition delete_user (user_id : Z) (w : World) : World :=
  let cache_key := user_id in
  let w := set_redis (Redis.del cache_key (redis w)) w in
  let write_operation := mkWrite Delete (id_only user_id) (now w) in
  let w := rpush write_operation w in
  count_cached_write w.

End WriteBehindCache.

(** The handlers of the application. *)

Definition get_user (user_id : Z) (w : World) : response User * World :=
  match WriteBehindCache.get_user user_id w with
  | (Ok (Some user), w) => (Reply 200 user, w)
  | (Ok None, w) => (HTTPException 404, w)
  | (Raised _, w) => (internal_server_error, w)
  end.

Definition create_user (user : User) (w : World) : response User * World :=
  let '(user, w) := WriteBehindCache.create_user user w in (Reply 201 user, w).

Definition update_user (user_id : Z) (user : User) (w : World) : response User * World :=
  let '(user, w) := WriteBehindCache.update_user user_id user w in (Reply 200 user, w).

Definition delete_user (user_id : Z) (w : World) : response unit * World :=
  (Reply 204 tt, WriteBehindCache.delete_user user_id w).

Definition force_flush (w : World) : response unit * World :=
  (Reply 202 tt, WriteBehindCache._flush_to_database w).

Definition get_stats (w : World) : response WriteStats * World :=
  (Reply 200 (write_stats w), w).

(** [lifespan] after the [yield]: the worker is stopped, then
    "flush remaining writes". *)
Definition shutdown (w : World) : World :=
  WriteBehindCache._flush_to_database w.

(** [n] ticks of [_flush_worker] with nothing in between. *)
Fixpoint flush_ticks (n : nat) (w : World) : World :=
  match n with
  | O => w
  | S n' => flush_ticks n' (WriteBehindCache._flush_to_database w)
  end.

(** The writes of a list applied to the store one after the other,
    when every one of them succeeds. *)
Fixpoint apply_in_order (writes : list Write) (pg : Pg.t) : option Pg.t :=
  match writes with
  | [] => Some pg
  | write :: writes' =>
      match WriteBehindCache.apply_write write pg with
      | (Ok _, pg') => apply_in_order writes' pg'
      | (Raised _, _) => None
      end
  end.

(** Everything that can happen to the service: a request to one of
    its handlers, a tick of the flush worker, time passing for the
    cache, or the wall clock moving on. *)
Inductive event : Type :=
  | GetUser (user_id : Z)
  | CreateUser (user : User)
  | UpdateUser (user_id : Z) (user : User)
  | DeleteUser (user_id : Z)
  | ForceFlush
  | GetStats
  | FlushTick
  | Elapse (seconds : Z).

Definition step (w : World) (ev : event) : World :=
  match ev with
  | GetUser i => snd (get_user i w)
  | CreateUser u => snd (create_user u w)
  | UpdateUser i u => snd (update_user i u w)
  | DeleteUser i => snd (delete_user i w)
  | ForceFlush => snd (force_flush w)
  | GetStats => snd (get_stats w)
  | FlushTick => WriteBehindCache._flush_to_database w
  | Elapse s =>
      mkWorld (Redis.elapse s (redis w)) (user_id_counter w) (write_queue w) (db w)
              (write_stats w) (now w + s) (errors w)
  end.

Definition run (w : World) (evs : list event) : World := fold_left step evs w.

(** The stats dictionary agrees with the queue: what is pending is
    what is queued, and every cached write is flushed or pending. *)
Definition stats_accounted (w : World) : Prop :=
  pending_writes (write_stats w) = llen w /\
  cached_writes (write_stats w) = db_flushes (write_stats w) + llen w.

End WriteBehind.

(** ** [write_through/main.py] *)

Module WriteThrough.

Definition CACHE_TTL : Z := 600.

Record WriteStats : Type := mkStats {
  total_writes : Z;
  successful_writes : Z;
  failed_writes : Z
}.

(** Redis database 2, the table, the stats dictionary and the log. *)
Record World : Type := mkWorld {
  redis : Redis.keyspace;
  db : Pg.t;
  write_stats : WriteStats;
  errors : list exn
}.

Definition set_redis (m : Redis.keyspace) (w : World) : World :=
  mkWorld m (db w) (write_stats w) (errors w).
Definition set_db (pg : Pg.t) (w : World) : World :=
  mkWorld (redis w) pg (write_stats w) (errors w).
Definition set_write_stats (s : WriteStats) (w : World) : World :=
  mkWorld (redis w) (db w) s (errors w).
Definition log_error (e : exn) (w : World) : World :=
  mkWorld (redis w) (db w) (write_stats w) (errors w ++ [e]).

Definition count_total (w : World) : World :=
  let s := write_stats w in
  set_write_stats (mkStats (total_writes s + 1) (successful_writes s) (failed_writes s)) w.
Definition count_successful (w : World) : World :=
  let s := write_stats w in
  set_write_stats (mkStats (total_writes s) (successful_writes s + 1) (failed_writes s)) w.
Definition count_failed (w : World) : World :=
  let s := write_stats w in
  set_write_stats (mkStats (total_writes s) (successful_writes s) (failed_writes s + 1)) w.

Module WriteThroughCache.

Definition update_user (user_id : Z) (user : User) (w : World)
  : outcome (option User) * World :=
  let cache_key := user_id in
  (* try: *)
  let '(r, pg') :=
    Pg.update_by_id (user_name user) (user_email user) (user_age user)
                    (Some user_id) (db w) in
  let w := set_db pg' w in
  match r with
  | Ok None => (Ok None, w)
  | Ok (Some row) =>
      let updated_user := Pg.user_of_row row in
      (Ok (Some updated_user),
       set_redis (Redis.setex cache_key CACHE_TTL updated_user (redis w)) w)
  | Raised e =>
      (* except Exception as e: invalidate the cache, then re-raise *)
      let w := log_error e w in
      (Raised e, set_redis (Redis.del cache_key (redis w)) w)
  end.

Definition get_user (user_id : Z) (w : World) : outcome (option User) * World :=
  let cache_key := user_id in
  match Redis.get cache_key (redis w) with
  | Some cached => (Ok (Some cached), w)
  | None =>
      let '(r, pg') := Pg.select_by_id user_id (db w) in
      let w := set_db pg' w in
      match r with
      | Raised e => (Raised e, w)
      | Ok None => (Ok None, w)
      | Ok (Some row) =>
          let user := Pg.user_of_row row in
          (Ok (Some user),
           set_redis (Redis.setex cache_key CACHE_TTL user (redis w)) w)
      end
  end.

Definition create_user (user : User) (w : World) : outcome User * World :=
  (* try: *)
  let '(r, pg') :=
    Pg.insert_returning (user_name user) (user_email user) (user_age user) (db w) in
  let w := set_db pg' w in
  match r with
  | Ok row =>
      let created_user := Pg.user_of_row row in
      let cache_key := Pg.row_id row in
      (Ok created_user,
       set_redis (Redis.setex cache_key CACHE_TTL created_user (redis w)) w)
  | Raised e =>
      (* except Exception as e: log, then re-raise *)
      (Raised e, log_error e w)
  end.

Definition delete_user (user_id : Z) (w : World) : outcome bool * World :=
  let cache_key := user_id in
  (* try: *)
  let '(r, pg') := Pg.delete_by_id (Some user_id) (db w) in
  let w := set_db pg' w in
  match r with
  | Ok O => (Ok false, w)                                (* "DELETE 0" *)
  | Ok (S _) => (Ok true, set_redis (Redis.del cache_key (redis w)) w)
  | Raised e =>
      (* except Exception as e: log, then re-raise *)
      (Raised e, log_error e w)
  end.

End WriteThroughCache.

Definition update_user (user_id : Z) (user : User) (w : World) : response User * World :=
  let w := count_total w in
  match WriteThroughCache.update_user user_id user w with
  | (Ok None, w) => (HTTPException 404, count_failed w)
  | (Ok (Some updated_user), w) => (Reply 200 updated_user, count_successful w)
  | (Raised _, w) => (HTTPException 500, count_failed w)
  end.

Definition get_user (user_id : Z) (w : World) : response User * World :=
  match WriteThroughCache.get_user user_id w with
  | (Ok (Some user), w) => (Reply 200 user, w)
  | (Ok None, w) => (HTTPException 404, w)
  | (Raised _, w) => (internal_server_error, w)
  end.

Definition create_user (user : User) (w : World) : response User * World :=
  let w := count_total w in
  match WriteThroughCache.create_user user w with
  | (Ok created_user, w) => (Reply 201 created_user, count_successful w)
  | (Raised _, w) => (HTTPException 500, count_failed w)
  end.

Definition delete_user (user_id : Z) (w : World) : response unit * World :=
  let w := count_total w in
  match WriteThroughCache.delete_user user_id w with
  | (Ok false, w) => (HTTPException 404, count_failed w)
  | (Ok true, w) => (Reply 204 tt, count_successful w)
  | (Raised _, w) => (HTTPException 500, count_failed w)
  end.

Definition get_stats (w : World) : response WriteStats * World :=
  (Reply 200 (write_stats w), w).

(** Everything that can happen to the service: a request to one of
    its handlers, or time passing. *)
Inductive event : Type :=
  | GetUser (user_id : Z)
  | CreateUser (user : User)
  | UpdateUser (user_id : Z) (user : User)
  | DeleteUser (user_id : Z)
  | GetStats
  | Elapse (seconds : Z).

Definition step (w : World) (ev : event) : World :=
  match ev with
  | GetUser i => snd (get_user i w)
  | CreateUser u => snd (create_user u w)
  | UpdateUser i u => snd (update_user i u w)
  | DeleteUser i => snd (delete_user i w)
  | GetStats => snd (get_stats w)
  | Elapse s => set_redis (Redis.elapse s (redis w)) w
  end.

Definition run (w : World) (evs : list event) : World := fold_left step evs w.

(** Every write is counted as successful or as failed. *)
Definition writes_accounted (w : World) : Prop :=
  total_writes (write_stats w)
  = successful_writes (write_stats w) + failed_writes (write_stats w).

(** What one write request does to the counters [s], giving [s']:
    one more write, which is successful when the handler replies and
    failed when it raises an [HTTPException], whatever its status. *)
Definition counted_once {A} (r : response A) (s s' : WriteStats) : Prop :=
  total_writes s' = total_writes s + 1 /\
  match r with
  | Reply _ _ =>
      successful_writes s' = successful_writes s + 1 /\
      failed_writes s' = failed_writes s
  | HTTPException _ =>
      successful_writes s' = successful_writes s /\
      failed_writes s' = failed_writes s + 1
  end.

End WriteThrough.

(** ** [refresh_ahead/main.py] *)

Module RefreshAhead.

Definition CACHE_TTL : Z := 60.
(** [REFRESH_THRESHOLD = 0.75], kept as the fraction 3/4. *)
Definition REFRESH_THRESHOLD_NUM : Z := 3.
Definition REFRESH_THRESHOLD_DEN : Z := 4.
Definition ACCESS_THRESHOLD : Z := 3.

(** [ttl < CACHE_TTL * (1 - REFRESH_THRESHOLD)] with both sides
    multiplied by the denominator; the floating-point product is the
    exact value 15.0. *)
Definition below_refresh_threshold (ttl : Z) : bool :=
  ttl * REFRESH_THRESHOLD_DEN
    <? CACHE_TTL * (REFRESH_THRESHOLD_DEN - REFRESH_THRESHOLD_NUM).

Record RefreshStats : Type := mkStats {
  total_reads : Z;
  cache_hits : Z;
  cache_misses : Z;
  proactive_refreshes : Z;
  hot_items_count : Z          (* refresh_stats["hot_items"] *)
}.

(** Redis database 4 (the keys [user:{id}], the hash [access_counts],
    the set [hot_items]), the table, the stats dictionary and the log. *)
Record World : Type := mkWorld {
  redis : Redis.keyspace;
  access_counts : gmap Z Z;
  hot_items : gset Z;
  db : Pg.t;
  refresh_stats : RefreshStats;
  errors : list exn
}.

Definition set_redis (m : Redis.keyspace) (w : World) : World :=
  mkWorld m (access_counts w) (hot_items w) (db w) (refresh_stats w) (errors w).
Definition set_access_counts (c : gmap Z Z) (w : World) : World :=
  mkWorld (redis w) c (hot_items w) (db w) (refresh_stats w) (errors w).
Definition set_hot_items (h : gset Z) (w : World) : World :=
  mkWorld (redis w) (access_counts w) h (db w) (refresh_stats w) (errors w).
Definition set_db (pg : Pg.t) (w : World) : World :=
  mkWorld (redis w) (access_counts w) (hot_items w) pg (refresh_stats w) (errors w).
Definition set_refresh_stats (s : RefreshStats) (w : World) : World :=
  mkWorld (redis w) (access_counts w) (hot_items w) (db w) s (errors w).
Definition log_error (e : exn) (w : World) : World :=
  mkWorld (redis w) (access_counts w) (hot_items w) (db w) (refresh_stats w)
          (errors w ++ [e]).

(** [SCARD hot_items] *)
Definition scard (w : World) : Z := Z.of_nat (size (hot_items w)).

Definition count_read (w : World) : World :=
  let s := refresh_stats w in
  set_refresh_stats
    (mkStats (total_reads s + 1) (cache_hits s) (cache_misses s)
             (proactive_refreshes s) (hot_items_count s)) w.
Definition count_hit (w : World) : World :=
  let s := refresh_stats w in
  set_refresh_stats
    (mkStats (total_reads s) (cache_hits s + 1) (cache_misses s)
             (proactive_refreshes s) (hot_items_count s)) w.
Definition count_miss (w : World) : World :=
  let s := refresh_stats w in
  set_refresh_stats
    (mkStats (total_reads s) (cache_hits s) (cache_misses s + 1)
             (proactive_refreshes s) (hot_items_count s)) w.
Definition count_refresh (w : World) : World :=
  let s := refresh_stats w in
  set_refresh_stats
    (mkStats (total_reads s) (cache_hits s) (cache_misses s)
             (proactive_refreshes s + 1) (hot_items_count s)) w.
(** [refresh_stats["hot_items"] = await self.redis.scard(...)] *)
Definition record_hot_items (w : World) : World :=
  let s := refresh_stats w in
  set_refresh_stats
    (mkStats (total_reads s) (cache_hits s) (cache_misses s)
             (proactive_refreshes s) (scard w)) w.

Module RefreshAheadCache.

Definition _refresh_user (user_id : Z) (w : World) : outcome unit * World :=
  let '(r, pg') := Pg.select_by_id user_id (db w) in
  let w := set_db pg' w in
  match r with
  | Raised e => (Raised e, w)
  | Ok None => (Ok tt, w)
  | Ok (Some row) =>
      let user := Pg.user_of_row row in
      let cache_key := user_id in
      (Ok tt, set_redis (Redis.setex cache_key CACHE_TTL user (redis w)) w)
  end.

(** The body of [for item_key in hot_items], with its [try]. *)
Definition refresh_item (w : World) (item_key : Z) : World :=
  let ttl := Redis.ttl item_key (redis w) in
  if ttl <=? 0
  then set_hot_items (hot_items w ∖ {[item_key]}) w       (* SREM; continue *)
  else if below_refresh_threshold ttl
  then let user_id := item_key in
       match _refresh_user user_id w with
       | (Ok _, w) => count_refresh w
       | (Raised e, w) => log_error e w
       end
  else w.

Definition _refresh_hot_items (w : World) : World :=
  let hot := elements (hot_items w) in                (* SMEMBERS *)
  match hot with
  | [] => w
  | _ :: _ => record_hot_items (fold_left refresh_item hot w)
  end.

Definition _track_access (user_id : Z) (w : World) : World :=
  let cache_key := user_id in
  (* HINCRBY access_counts cache_key 1 *)
  let access_count := default 0 (access_counts w !! cache_key) + 1 in
  let w := set_access_counts (<[cache_key := access_count]> (access_counts w)) w in
  if ACCESS_THRESHOLD <=? access_count
  then record_hot_items (set_hot_items ({[cache_key]} ∪ hot_items w) w)
  else w.

Definition get_user (user_id : Z) (w : World) : outcome (option User) * World :=
  let cache_key := user_id in
  let w := _track_access user_id w in
  match Redis.get cache_key (redis w) with
  | Some cached => (Ok (Some cached), count_hit w)
  | None =>
      let w := count_miss w in
      let '(r, pg') := Pg.select_by_id user_id (db w) in
      let w := set_db pg' w in
      match r with
      | Raised e => (Raised e, w)
      | Ok None => (Ok None, w)
      | Ok (Some row) =>
          let user := Pg.user_of_row row in
          (Ok (Some user),
           set_redis (Redis.setex cache_key CACHE_TTL user (redis w)) w)
      end
  end.

Definition create_user (user : User) (w : World) : outcome User * World :=
  let '(r, pg') :=
    Pg.insert_returning (user_name user) (user_email user) (user_age user) (db w) in
  let w := set_db pg' w in
  match r with
  | Raised e => (Raised e, w)
  | Ok row =>
      let created_user := Pg.user_of_row row in
      let cache_key := Pg.row_id row in
      (Ok created_user,
       set_redis (Redis.setex cache_key CACHE_TTL created_user (redis w)) w)
  end.

Definition update_user (user_id : Z) (user : User) (w : World)
  : outcome (option User) * World :=
  let '(r, pg') :=
    Pg.update_by_id (user_name user) (user_email user) (user_age user)
                    (Some user_id) (db w) in
  let w := set_db pg' w in
  match r with
  | Raised e => (Raised e, w)
  | Ok None => (Ok None, w)
  | Ok (Some row) =>
      let updated_user := Pg.user_of_row row in
      let cache_key := user_id in
      (Ok (Some updated_user),
       set_redis (Redis.setex cache_key CACHE_TTL updated_user (redis w)) w)
  end.

Definition delete_user (user_id : Z) (w : World) : outcome bool * World :=
  let '(r, pg') := Pg.delete_by_id (Some user_id) (db w) in
  let w := set_db pg' w in
  match r with
  | Raised e => (Raised e, w)
  | Ok O => (Ok false, w)                              (* "DELETE 0" *)
  | Ok (S _) =>
      let cache_key := user_id in
      let w := set_redis (Redis.del cache_key (redis w)) w in
      let w := set_hot_items (hot_items w ∖ {[cache_key]}) w in
      let w := set_access_counts (delete cache_key (access_counts w)) w in
      (Ok true, w)
  end.

End RefreshAheadCache.

(** The handlers of the application. *)

Definition get_user (user_id : Z) (w : World) : response User * World :=
  let w := count_read w in
  match RefreshAheadCache.get_user user_id w with
  | (Ok (Some user), w) => (Reply 200 user, w)
  | (Ok None, w) => (HTTPException 404, w)
  | (Raised _, w) => (internal_server_error, w)
  end.

Definition create_user (user : User) (w : World) : response User * World :=
  match RefreshAheadCache.create_user user w with
  | (Ok created_user, w) => (Reply 201 created_user, w)
  | (Raised _, w) => (internal_server_error, w)
  end.

Definition update_user (user_id : Z) (user : User) (w : World) : response User * World :=
  match RefreshAheadCache.update_user user_id user w with
  | (Ok (Some updated_user), w) => (Reply 200 updated_user, w)
  | (Ok None, w) => (HTTPException 404, w)
  | (Raised _, w) => (internal_server_error, w)
  end.

Definition delete_user (user_id : Z) (w : World) : response unit * World :=
  match RefreshAheadCache.delete_user user_id w with
  | (Ok true, w) => (Reply 204 tt, w)
  | (Ok false, w) => (HTTPException 404, w)
  | (Raised _, w) => (internal_server_error, w)
  end.

Definition get_stats (w : World) : response RefreshStats * World :=
  (Reply 200 (refresh_stats w), w).

Definition get_hot_items (w : World) : response (list Z * gmap Z Z) * World :=
  (Reply 200 (elements (hot_items w), access_counts w), w).

(** Everything that can happen to the service: a request to one of
    its handlers, a tick of the refresh worker, or time passing. *)
Inductive event : Type :=
  | GetUser (user_id : Z)
  | CreateUser (user : User)
  | UpdateUser (user_id : Z) (user : User)
  | DeleteUser (user_id : Z)
  | GetStats
  | GetHotItems
  | RefreshTick
  | Elapse (seconds : Z).

Definition step (w : World) (ev : event) : World :=
  match ev with
  | GetUser i => snd (get_user i w)
  | CreateUser u => snd (create_user u w)
  | UpdateUser i u => snd (update_user i u w)
  | DeleteUser i => snd (delete_user i w)
  | GetStats => snd (get_stats w)
  | GetHotItems => snd (get_hot_items w)
  | RefreshTick => RefreshAheadCache._refresh_hot_items w
  | Elapse s => set_redis (Redis.elapse s (redis w)) w
  end.

Definition run (w : World) (evs : list event) : World := fold_left step evs w.

(** The three counters of the reads, and the relation between them. *)
Definition counters (w : World) : Z * Z * Z :=
  (total_reads (refresh_stats w), cache_hits (refresh_stats w),
   cache_misses (refresh_stats w)).

Definition reads_accounted (w : World) : Prop :=
  cache_hits (refresh_stats w) + cache_misses (refresh_stats w)
  = total_reads (refresh_stats w).

(** How many of the reads [ids] are reads of [k]. *)
Definition reads_of (k : Z) (ids : list Z) : Z :=
  Z.of_nat (length (List.filter (Z.eqb k) ids)).

(** [REFRESH_INTERVAL = 10] and one turn of the loop of
    [_refresh_worker]: sleep for the interval, then scan the hot items
    (the time the scan itself takes is not counted). *)
Definition REFRESH_INTERVAL : Z := 10.

Definition _refresh_worker_turn (w : World) : World :=
  RefreshAheadCache._refresh_hot_items (step w (Elapse REFRESH_INTERVAL)).

Fixpoint _refresh_worker (turns : nat) (w : World) : World :=
  match turns with
  | O => w
  | S n => _refresh_worker n (_refresh_worker_turn w)
  end.

(** What keeps a hot key alive: it is hot, its row is in the table
    (so that its identity is one the 32-bit column holds), the
    connection has no pending fault, and the cached copy is that row
    with at least [t] seconds to live. *)
Definition alive (k : Z) (row : Pg.Row) (t : Z) (w : World) : Prop :=
  k ∈ hot_items w /\
  (find (Pg.has_id k) (Pg.users (db w)) = Some row /\ Pg.int4 k = true) /\
  Pg.faults (db w) = [] /\
  exists t', redis w !! k = Some (Pg.user_of_row row, t') /\ t <= t'.

(** The hot keys whose lifetime query is positive and below the
    refresh threshold: those the tick tries to reload. *)
Definition due (w : World) (k : Z) : bool :=
  (0 <? Redis.ttl k (redis w)) && below_refresh_threshold (Redis.ttl k (redis w)).

End RefreshAhead.

(** ** Vocabulary of the statements, and concrete worlds *)

Module Scenarios.

Definition alice : Pg.Row := Pg.mkRow 7 "Alice" "alice@example.com" 25.
Definition bob : Pg.Row := Pg.mkRow 8 "Bob" "bob@example.com" 40.

(** A table with Alice and Bob, and a connection that never fails. *)
Definition two_users : Pg.t := Pg.mk [alice; bob] 9 [].

Definition alice_aged (a : Z) : User := mkUser (Some 7) "Alice" "alice@example.com" a.
Definition carol : User := mkUser None "Carol" "carol@example.com" 33.


Module WB.
Import WriteBehind.

Definition no_stats : WriteStats := mkStats 0 0 0 None.

(** A fresh service over the two users. *)
Definition fresh : World := mkWorld ∅ 0 [] two_users no_stats 100 [].



(** Eleven creates of distinct users wait in the queue. *)
Definition nth_create (n : nat) : Write :=
  mkWrite Create
    (model_dump (mkUser (Some (Z.of_nat n)) "User"
                        (String (Ascii.ascii_of_nat (65 + n)) "@example.com") 20))
    (Z.of_nat n).
Definition backlog_of_eleven : World :=
  mkWorld ∅ 11 (map nth_create (seq 1 11)) two_users (mkStats 11 0 11 None) 100 [].

(** Twenty-five deletes wait in the queue. *)
Definition backlog_of_deletes : World :=
  mkWorld ∅ 0 (map (fun n => mkWrite Delete (id_only (Z.of_nat n)) 0) (seq 1 25))
          two_users (mkStats 25 0 25 None) 100 [].

(** Alice is cached and durable. *)
Definition alice_cached : World :=
  mkWorld (Redis.setex 7 CACHE_TTL (Pg.user_of_row alice) ∅) 0 [] two_users
          no_stats 100 [].


End WB.

Module WT.
Import WriteThrough.

(** Alice is cached, and the next statement sent to the store fails. *)
Definition alice_cached_store_down : World :=
  mkWorld (Redis.setex 7 CACHE_TTL (Pg.user_of_row alice) ∅)
          (Pg.mk [alice; bob] 9 [true]) (mkStats 0 0 0) [].

(** A fresh service over the two users. *)
Definition fresh : World := mkWorld ∅ two_users (mkStats 0 0 0) [].
End WT.

Module RA.
Import RefreshAhead.

Definition no_stats : RefreshStats := mkStats 0 0 0 0 0.

(** A fresh service over the two users. *)
Definition fresh : World := mkWorld ∅ ∅ ∅ two_users no_stats [].

(** Alice is hot and cached with five seconds left. *)
Definition alice_hot : World :=
  mkWorld (Redis.setex 7 5 (Pg.user_of_row alice) ∅) {[7 := 3]} {[7]} two_users
          (mkStats 3 2 1 0 1) [].

(** The same, but the row of Alice has left the table meanwhile
    (the table is shared with the other services). *)
Definition alice_hot_not_durable : World :=
  mkWorld (Redis.setex 7 5 (Pg.user_of_row alice) ∅) {[7 := 3]} {[7]}
          (Pg.mk [bob] 9 []) (mkStats 3 2 1 0 1) [].

(** The same as [alice_hot], but the next statement sent to the store
    fails. *)
Definition alice_hot_store_down : World :=
  mkWorld (Redis.setex 7 5 (Pg.user_of_row alice) ∅) {[7 := 3]} {[7]}
          (Pg.mk [alice; bob] 9 [true]) (mkStats 3 2 1 0 1) [].
End RA.

End Scenarios.

(** * Properties *)

(** ** The durable store *)

Module PgFacts.
Import Pg.

Lemma statement_no_faults {A} (body : t -> outcome A * t) pg :
  faults pg = [] -> statement body pg = body pg.
Proof. unfold statement. intros ->. reflexivity. Qed.

(** A statement that raises leaves the rows as they were. *)
Lemma statement_raised_users {A} (body : t -> outcome A * t) pg e pg' :
  (forall p e' p', body p = (Raised e', p') -> users p' = users p) ->
  statement body pg = (Raised e, pg') -> users pg' = users pg.
Proof.
  intros Hbody. unfold statement.
  destruct (faults pg) as [|[] fs]; intros H.
  - eauto.
  - injection H as _ <-. reflexivity.
  - apply Hbody in H. exact H.
Qed.



Lemma existsb_false_filter {A} (p : A -> bool) l :
  existsb p l = false -> List.filter p l = [].
Proof.
  induction l as [|x l IH]; simpl; [reflexivity|].
  destruct (p x); simpl; [discriminate | exact IH].
Qed.

Lemma existsb_false_filter_negb {A} (p : A -> bool) l :
  existsb p l = false -> List.filter (fun x => negb (p x)) l = l.
Proof.
  induction l as [|x l IH]; simpl; [reflexivity|].
  destruct (p x); simpl; [discriminate | intros H; rewrite IH by exact H; reflexivity].
Qed.









(** The outcomes of the upsert: when it succeeds the age fits the
    column, and either the email was there and its row is updated, or
    it was not and a row is appended; when it raises no row changes. *)
Lemma upsert_cases n e a pg :
  match upsert_by_email n e a pg with
  | (Ok _, pg') =>
      int4 a = true /\
      (existsb (has_email e) (users pg) = true /\
       users pg' = map (do_update n e a) (users pg)
       \/
       existsb (has_email e) (users pg) = false /\
       users pg' = users pg ++ [mkRow (users_id_seq pg) n e a])
  | (Raised _, pg') => users pg' = users pg
  end.
Proof.
  unfold upsert_by_email, statement.
  destruct (faults pg) as [|[] fs]; cbn; try reflexivity;
    destruct (int4 a); cbn; try reflexivity;
    destruct (existsb (has_email e) (users pg)) eqn:Hex; cbn; auto;
    destruct (existsb (has_id (users_id_seq pg)) (users pg)); cbn; auto.
Qed.





(** Deleting an identity that no row has changes no row. *)
Lemma delete_absent_users i pg :
  existsb (has_id i) (users pg) = false ->
  users (snd (delete_by_id (Some i) pg)) = users pg.
Proof.
  intros Hex. unfold delete_by_id, statement.
  destruct (faults pg) as [|[] fs]; destruct (int4 i); cbn;
    rewrite ?(existsb_false_filter_negb _ _ Hex); reflexivity.
Qed.

(** An identity that does not fit the column is rejected before
    anything is executed. *)
Lemma delete_out_of_range i pg :
  faults pg = [] -> int4 i = false ->
  delete_by_id (Some i) pg = (Raised DataError, pg).
Proof.
  intros Hf Hi. unfold delete_by_id.
  rewrite statement_no_faults by exact Hf. rewrite Hi. reflexivity.
Qed.

(** Without a pending fault the lookup answers with the first row of
    that identity, or raises [DataError] for an identity that does not
    fit the column; the store is as before. *)
Lemma select_no_faults i pg :
  faults pg = [] ->
  select_by_id i pg
  = (if int4 i then Ok (find (has_id i) (users pg)) else Raised DataError, pg).
Proof.
  intros Hf. unfold select_by_id.
  rewrite statement_no_faults by exact Hf. destruct (int4 i); reflexivity.
Qed.

(** Without a pending fault the delete succeeds for an identity that
    fits the column, and raises [DataError] for one that does not. *)
Lemma delete_no_faults i pg :
  faults pg = [] ->
  fst (delete_by_id (Some i) pg)
  = if int4 i then Ok (length (List.filter (has_id i) (users pg))) else Raised DataError.
Proof.
  intros Hf. unfold delete_by_id. rewrite statement_no_faults by exact Hf.
  destruct (int4 i); reflexivity.
Qed.

End PgFacts.

(** ** Write-behind *)

Module WriteBehindFacts.
Import WriteBehind WriteBehind.WriteBehindCache.

Lemma lpop_batch_take_drop n q : lpop_batch n q = (take n q, drop n q).
Proof.
  revert q. induction n as [|n IH]; intros [|x q]; simpl; try reflexivity.
  rewrite IH. reflexivity.
Qed.

(** One pass over a batch: every logged error comes with one write
    pushed back on the tail of the queue. *)
Lemma process_writes_requeues ws w :
  exists es failed,
    errors (process_writes ws w) = errors w ++ es /\
    write_queue (process_writes ws w) = write_queue w ++ failed /\
    length es = length failed.
Proof.
  revert w. induction ws as [|x ws IH]; intros w; simpl.
  - exists [], []. rewrite !app_nil_r. auto.
  - destruct (apply_write x (db w)) as [r pg'].
    destruct r as [[]|e].
    + destruct (IH (count_db_flush (set_db pg' w))) as (es & failed & He & Hq & Hl).
      exists es, failed. auto.
    + destruct (IH (rpush x (log_error e (set_db pg' w)))) as (es & failed & He & Hq & Hl).
      exists (e :: es), (x :: failed). simpl in *.
      rewrite He, Hq, <- !app_assoc. simpl. auto.
Qed.

Lemma flush_requeues w :
  exists es failed,
    errors (_flush_to_database w) = errors w ++ es /\
    write_queue (_flush_to_database w) = drop BATCH_SIZE (write_queue w) ++ failed /\
    length es = length failed.
Proof.
  unfold _flush_to_database. rewrite lpop_batch_take_drop.
  destruct (take BATCH_SIZE (write_queue w)) as [|x ws] eqn:Htake.
  - exists [], []. simpl. rewrite !app_nil_r. auto.
  - destruct (process_writes_requeues (x :: ws)
                (set_write_queue (drop BATCH_SIZE (write_queue w)) w))
      as (es & failed & He & Hq & Hl).
    exists es, failed. simpl in *. auto.
Qed.

(** A tick during which nothing fails removes one batch from the head
    of the queue and nothing else. *)
Lemma flush_without_failure w :
  errors (_flush_to_database w) = errors w ->
  write_queue (_flush_to_database w) = drop BATCH_SIZE (write_queue w).
Proof.
  destruct (flush_requeues w) as (es & failed & He & Hq & Hl). intros Herr.
  rewrite He in Herr. apply (f_equal length) in Herr. rewrite length_app in Herr.
  assert (length failed = 0%nat) as Hnil%nil_length_inv by lia.
  rewrite Hq, Hnil, app_nil_r. reflexivity.
Qed.

Lemma flush_ticks_errors t w :
  exists es, errors (flush_ticks t w) = errors w ++ es.
Proof.
  revert w. induction t as [|t IH]; intros w; simpl.
  - exists []. rewrite app_nil_r. reflexivity.
  - destruct (flush_requeues w) as (es & _ & He & _).
    destruct (IH (_flush_to_database w)) as (es' & He').
    exists (es ++ es'). rewrite He', He, app_assoc. reflexivity.
Qed.

Lemma app_eq_self_nil {A} (l es : list A) : l ++ es = l -> es = [].
Proof.
  intros H. apply (f_equal length) in H. rewrite length_app in H.
  destruct es; [reflexivity | simpl in H; lia].
Qed.

(** C8: with no durable-store failure (nothing is logged by the flush
    worker), [ceil(n / BATCH_SIZE)] ticks, or more, empty a backlog of
    [n] queued writes. *)
Theorem backlog_drained_within_ceil_ticks (w : World) (t : nat) :
  errors (flush_ticks t w) = errors w ->
  ((length (write_queue w) + (BATCH_SIZE - 1)) / BATCH_SIZE <= t)%nat ->
  write_queue (flush_ticks t w) = [] /\ llen (flush_ticks t w) = 0.
Proof.
  intros Herr Ht.
  assert (Hq : write_queue (flush_ticks t w) = []); [|unfold llen; rewrite Hq; auto].
  revert w Herr Ht. induction t as [|t IH]; intros w Herr Ht; cbn [flush_ticks] in *.
  - apply Nat.le_0_r, Nat.div_small_iff in Ht; [|discriminate].
    destruct (write_queue w) as [|x q]; [reflexivity|].
    exfalso. unfold BATCH_SIZE in Ht. cbn [length] in Ht. lia.
  - destruct (flush_requeues w) as (es & failed & He & Hq & Hl).
    destruct (flush_ticks_errors t (_flush_to_database w)) as (es' & He').
    rewrite He', He, <- app_assoc in Herr.
    apply app_eq_self_nil, app_eq_nil in Herr as [-> ->].
    destruct failed; [|discriminate]. rewrite app_nil_r in *.
    apply IH.
    + exact He'.
    + rewrite Hq, length_drop. unfold BATCH_SIZE in *.
      destruct (Nat.le_gt_cases (length (write_queue w)) 10) as [Hle|Hgt].
      * replace (length (write_queue w) - 10)%nat with 0%nat by lia.
        rewrite Nat.div_small by lia. lia.
      * replace (length (write_queue w) + (10 - 1))%nat
          with ((length (write_queue w) - 10 + (10 - 1)) + 1 * 10)%nat in Ht by lia.
        rewrite Nat.div_add in Ht by lia. lia.
Qed.


(** A batch in which every write succeeds touches neither the queue
    nor the log, and leaves the store as [apply_in_order] says. *)
Lemma process_writes_all_ok ws w pg :
  apply_in_order ws (db w) = Some pg ->
  db (process_writes ws w) = pg /\
  write_queue (process_writes ws w) = write_queue w /\
  errors (process_writes ws w) = errors w.
Proof.
  revert w. induction ws as [|x ws IH]; intros w; simpl.
  - intros [= <-]. auto.
  - destruct (apply_write x (db w)) as [[[]|e] pg']; [|discriminate].
    intros H. apply (IH (count_db_flush (set_db pg' w))) in H. exact H.
Qed.


Lemma flush_batch w x ws :
  take BATCH_SIZE (write_queue w) = x :: ws ->
  _flush_to_database w
  = record_flush
      (process_writes (x :: ws) (set_write_queue (drop BATCH_SIZE (write_queue w)) w)).
Proof.
  intros H. unfold _flush_to_database. rewrite lpop_batch_take_drop, H. reflexivity.
Qed.



(** C2: with eleven writes queued and a store that never fails, the
    forced flush, and the flush of [lifespan] at shutdown, stop after
    one batch of [BATCH_SIZE] and leave one write pending. *)
Theorem force_flush_stops_after_one_batch :
  let w' := snd (force_flush Scenarios.WB.backlog_of_eleven) in
  length (write_queue Scenarios.WB.backlog_of_eleven) = 11%nat /\
  errors w' = [] /\
  db_flushes (write_stats w') = 10 /\
  length (write_queue w') = 1%nat /\
  pending_writes (write_stats w') = 1 /\
  write_queue (shutdown Scenarios.WB.backlog_of_eleven) = write_queue w'.
Proof. vm_compute. repeat split; reflexivity. Qed.

Lemma backlog_drained_within_ceil_ticks_witness :
  ((length (write_queue Scenarios.WB.backlog_of_deletes) + (BATCH_SIZE - 1)) / BATCH_SIZE
   = 3)%nat /\
  write_queue (flush_ticks 3 Scenarios.WB.backlog_of_deletes) = [] /\
  llen (flush_ticks 3 Scenarios.WB.backlog_of_deletes) = 0.
Proof.
  split; [reflexivity|].
  apply (backlog_drained_within_ceil_ticks Scenarios.WB.backlog_of_deletes 3).
  - reflexivity.
  - vm_compute. lia.
Defined.




(** C10, as stated, fails for an identity the column cannot hold: the
    handler answers 204 and queues the delete, no row has that
    identity, and yet the durable application is refused with
    [DataError]; three ticks later the delete is still queued, three
    failures are logged and nothing was flushed. *)
Lemma out_of_range_delete_is_never_applied :
  let w1 := snd (WriteBehind.delete_user 2147483648 Scenarios.WB.fresh) in
  let m := mkWrite Delete (id_only 2147483648) 100 in
  fst (WriteBehind.delete_user 2147483648 Scenarios.WB.fresh) = Reply 204 tt /\
  write_queue w1 = [m] /\
  existsb (Pg.has_id 2147483648) (Pg.users (db w1)) = false /\
  Pg.faults (db w1) = [] /\
  fst (apply_write m (db w1)) = Raised DataError /\
  fst (apply_write m (db w1)) <> Ok tt /\
  write_queue (flush_ticks 3 w1) = [m] /\
  errors (flush_ticks 3 w1) = [DataError; DataError; DataError] /\
  db_flushes (write_stats (flush_ticks 3 w1)) = 0.
Proof. vm_compute. repeat split; discriminate. Qed.

(** C10, amended: the write-behind delete answers 204 for every
    identity, cached or not, durable or not: it drops the cache key and
    queues the delete.  When that delete later reaches a store with no
    such identity it changes no row; over a connection with no pending
    fault it succeeds if the identity fits the 32-bit column, and is
    refused with [DataError] (never with a not-found) if it does not,
    in which case the tick logs the failure and queues the delete
    again. *)
Theorem delete_never_not_found (w : World) (i : Z) :
  let m := mkWrite Delete (id_only i) (now w) in
  fst (WriteBehind.delete_user i w) = Reply 204 tt /\
  Redis.get i (redis (snd (WriteBehind.delete_user i w))) = None /\
  write_queue (snd (WriteBehind.delete_user i w)) = write_queue w ++ [m] /\
  db (snd (WriteBehind.delete_user i w)) = db w /\
  (forall pg : Pg.t,
     existsb (Pg.has_id i) (Pg.users pg) = false ->
     Pg.users (snd (apply_write m pg)) = Pg.users pg /\
     (Pg.faults pg = [] ->
      fst (apply_write m pg) = if Pg.int4 i then Ok tt else Raised DataError)) /\
  (forall w0 : World,
     write_queue w0 = [m] -> Pg.faults (db w0) = [] -> Pg.int4 i = false ->
     let w1 := _flush_to_database w0 in
     write_queue w1 = [m] /\ db w1 = db w0 /\ errors w1 = errors w0 ++ [DataError] /\
     db_flushes (write_stats w1) = db_flushes (write_stats w0)).
Proof.
  intros m. split; [reflexivity|]. split; [|split; [reflexivity|split; [reflexivity|split]]].
  - change (redis (snd (WriteBehind.delete_user i w))) with (Redis.del i (redis w)).
    unfold Redis.get, Redis.del. rewrite lookup_delete_eq. reflexivity.
  - intros pg Hex. unfold apply_write. cbn [m operation user]. split.
    + pose proof (PgFacts.delete_absent_users i pg Hex) as Hd.
      destruct (Pg.delete_by_id (Some i) pg) as [r pg']. exact Hd.
    + intros Hf. pose proof (PgFacts.delete_no_faults i pg Hf) as Hd.
      destruct (Pg.delete_by_id (Some i) pg) as [[n|e] pg']; cbn in *;
        destruct (Pg.int4 i); congruence.
  - intros w0 Hq Hf Hi w1. subst w1.
    rewrite (flush_batch w0 m []) by (rewrite Hq; reflexivity).
    rewrite Hq. cbn [process_writes].
    change (db (set_write_queue (drop BATCH_SIZE [m]) w0)) with (db w0).
    unfold apply_write. cbn [m operation user].
    rewrite (PgFacts.delete_out_of_range i (db w0) Hf Hi). cbn. auto.
Qed.

Lemma delete_never_not_found_witness :
  fst (WriteBehind.delete_user 99 Scenarios.WB.fresh) = Reply 204 tt /\
  Pg.users (snd (apply_write (mkWrite Delete (id_only 99) 100) Scenarios.two_users))
  = Pg.users Scenarios.two_users /\
  fst (apply_write (mkWrite Delete (id_only 99) 100) Scenarios.two_users) = Ok tt /\
  write_queue
    (_flush_to_database (snd (WriteBehind.delete_user 2147483648 Scenarios.WB.fresh)))
  = [mkWrite Delete (id_only 2147483648) 100].
Proof.
  destruct (delete_never_not_found Scenarios.WB.fresh 99) as (Hr & _ & _ & _ & Hpg & _).
  destruct (Hpg Scenarios.two_users eq_refl) as (Hu & Hok).
  split; [exact Hr|]. split; [exact Hu|]. split; [exact (Hok eq_refl)|].
  destruct (delete_never_not_found Scenarios.WB.fresh 2147483648) as (_ & _ & _ & _ & _ & Hq).
  destruct (Hq (snd (WriteBehind.delete_user 2147483648 Scenarios.WB.fresh))
              eq_refl eq_refl eq_refl) as (Hq1 & _).
  exact Hq1.
Defined.

Lemma find_none_existsb {A} (p : A -> bool) l :
  existsb p l = false -> find p l = None.
Proof.
  induction l as [|x l IH]; simpl; [reflexivity|].
  destruct (p x); simpl; [discriminate | exact IH].
Qed.

(** The world [alice_cached] is a fresh service after one read of
    Alice. *)
Lemma alice_cached_reachable :
  snd (WriteBehind.get_user 7 Scenarios.WB.fresh) = Scenarios.WB.alice_cached.
Proof. vm_compute. reflexivity. Qed.

(** C1, as stated, fails for delete: Alice is cached and durable; she
    is deleted through the write-behind path; before any flush the
    next read falls back to the store, finds her row, answers 200 and
    caches her again. *)
Lemma read_after_delete_sees_stale_entity :
  let w' := snd (WriteBehind.delete_user 7 Scenarios.WB.alice_cached) in
  db w' = db Scenarios.WB.alice_cached /\
  fst (WriteBehind.get_user 7 w') = Reply 200 (Pg.user_of_row Scenarios.alice) /\
  fst (WriteBehind.get_user 7 w') <> HTTPException 404 /\
  fst (WriteBehindCache.get_user 7 w') <> Ok None /\
  Redis.get 7 (redis (snd (WriteBehind.get_user 7 w')))
  = Some (Pg.user_of_row Scenarios.alice).
Proof. vm_compute. repeat split; discriminate. Qed.

(** C1, amended: a read that follows a write-behind create or update
    returns the written user from the cache while the store is still
    untouched; a read that follows a write-behind delete finds the
    cache key gone and falls back to the store.  When the lookup
    succeeds (no pending fault, an identity that fits the 32-bit
    column) the read answers with what the store holds: absence when
    the store has no such identity, and otherwise the stored entity,
    which it caches again with the full lifetime.  For an identity
    that does not fit the column the lookup raises and the read fails
    with status 500. *)
Theorem read_after_write_behind (w : World) :
  (forall u : User,
     let i := user_id_counter w + 1 in
     let w' := snd (WriteBehindCache.create_user u w) in
     fst (WriteBehindCache.create_user u w) = with_id i u /\
     db w' = db w /\
     WriteBehindCache.get_user i w' = (Ok (Some (with_id i u)), w')) /\
  (forall (k : Z) (u : User),
     let w' := snd (WriteBehindCache.update_user k u w) in
     fst (WriteBehindCache.update_user k u w) = with_id k u /\
     db w' = db w /\
     WriteBehindCache.get_user k w' = (Ok (Some (with_id k u)), w')) /\
  (forall k : Z,
     let w' := WriteBehindCache.delete_user k w in
     db w' = db w /\
     Redis.get k (redis w') = None /\
     (Pg.faults (db w) = [] -> Pg.int4 k = true ->
      fst (WriteBehindCache.get_user k w')
      = Ok (Pg.user_of_row <$> find (Pg.has_id k) (Pg.users (db w)))) /\
     (Pg.faults (db w) = [] -> Pg.int4 k = true ->
      existsb (Pg.has_id k) (Pg.users (db w)) = false ->
      fst (WriteBehindCache.get_user k w') = Ok None /\
      fst (WriteBehind.get_user k w') = HTTPException 404 /\
      redis (snd (WriteBehindCache.get_user k w')) = redis w') /\
     (forall row : Pg.Row,
        Pg.faults (db w) = [] -> Pg.int4 k = true ->
        find (Pg.has_id k) (Pg.users (db w)) = Some row ->
        fst (WriteBehindCache.get_user k w') = Ok (Some (Pg.user_of_row row)) /\
        fst (WriteBehind.get_user k w') = Reply 200 (Pg.user_of_row row) /\
        redis (snd (WriteBehindCache.get_user k w'))
        = Redis.setex k CACHE_TTL (Pg.user_of_row row) (redis w') /\
        redis (snd (WriteBehindCache.get_user k w')) !! k
        = Some (Pg.user_of_row row, CACHE_TTL)) /\
     (Pg.faults (db w) = [] -> Pg.int4 k = false ->
      fst (WriteBehindCache.get_user k w') = Raised DataError /\
      fst (WriteBehind.get_user k w') = HTTPException 500 /\
      redis (snd (WriteBehindCache.get_user k w')) = redis w')).
Proof.
  split; [|split].
  - intros u i w'. repeat split.
    unfold WriteBehindCache.get_user.
    change (redis w') with (Redis.setex i CACHE_TTL (with_id i u) (redis w)).
    unfold Redis.get, Redis.setex. rewrite lookup_insert_eq. reflexivity.
  - intros k u w'. repeat split.
    unfold WriteBehindCache.get_user.
    change (redis w') with (Redis.setex k CACHE_TTL (with_id k u) (redis w)).
    unfold Redis.get, Redis.setex. rewrite lookup_insert_eq. reflexivity.
  - intros k w'.
    assert (Hgone : Redis.get k (redis w') = None).
    { change (redis w') with (Redis.del k (redis w)).
      unfold Redis.get, Redis.del. rewrite lookup_delete_eq. reflexivity. }
    assert (Hget : Pg.faults (db w) = [] ->
              WriteBehindCache.get_user k w'
              = let '(r, pg') :=
                  (if Pg.int4 k then Ok (find (Pg.has_id k) (Pg.users (db w)))
                   else Raised DataError, db w) in
                match r with
                | Raised e => (Raised e, set_db pg' w')
                | Ok None => (Ok None, set_db pg' w')
                | Ok (Some row) =>
                    (Ok (Some (Pg.user_of_row row)),
                     set_redis (Redis.setex k CACHE_TTL (Pg.user_of_row row)
                                            (redis (set_db pg' w')))
                               (set_db pg' w'))
                end).
    { intros Hf. unfold WriteBehindCache.get_user. rewrite Hgone.
      change (db w') with (db w). rewrite (PgFacts.select_no_faults k (db w) Hf).
      reflexivity. }
    split; [reflexivity|]. split; [exact Hgone|]. split; [|split; [|split]].
    + intros Hf Hk. rewrite (Hget Hf), Hk. cbv zeta.
      destruct (find (Pg.has_id k) (Pg.users (db w))); reflexivity.
    + intros Hf Hk Hex. unfold WriteBehind.get_user.
      rewrite (Hget Hf), Hk, (find_none_existsb _ _ Hex). cbn. auto.
    + intros row Hf Hk Hrow. unfold WriteBehind.get_user.
      rewrite (Hget Hf), Hk, Hrow. cbn.
      unfold Redis.setex. rewrite lookup_insert_eq. auto.
    + intros Hf Hk. unfold WriteBehind.get_user.
      rewrite (Hget Hf), Hk. cbn. auto.
Qed.

Lemma read_after_write_behind_witness :
  fst (WriteBehindCache.get_user 99 (WriteBehindCache.delete_user 99 Scenarios.WB.fresh))
  = Ok None /\
  fst (WriteBehindCache.get_user 7 (WriteBehindCache.delete_user 7 Scenarios.WB.fresh))
  = Ok (Some (Pg.user_of_row Scenarios.alice)) /\
  redis (snd (WriteBehindCache.get_user 7
                (WriteBehindCache.delete_user 7 Scenarios.WB.alice_cached))) !! 7
  = Some (Pg.user_of_row Scenarios.alice, CACHE_TTL) /\
  fst (WriteBehind.get_user 2147483648
         (WriteBehindCache.delete_user 2147483648 Scenarios.WB.fresh))
  = HTTPException 500.
Proof.
  destruct (read_after_write_behind Scenarios.WB.fresh) as (_ & _ & Hdel).
  destruct (read_after_write_behind Scenarios.WB.alice_cached) as (_ & _ & Hdel').
  split; [|split; [|split]].
  - destruct (Hdel 99) as (_ & _ & _ & Habsent & _).
    exact (proj1 (Habsent eq_refl eq_refl eq_refl)).
  - destruct (Hdel 7) as (_ & _ & Hread & _). exact (Hread eq_refl eq_refl).
  - destruct (Hdel' 7) as (_ & _ & _ & _ & Hstale & _).
    exact (proj2 (proj2 (proj2 (Hstale Scenarios.alice eq_refl eq_refl eq_refl)))).
  - destruct (Hdel 2147483648) as (_ & _ & _ & _ & _ & Hrange).
    exact (proj1 (proj2 (Hrange eq_refl eq_refl))).
Defined.

End WriteBehindFacts.

(** ** Write-through *)

Module WriteThroughFacts.
Import WriteThrough.

Lemma update_raised_users n e a oi pg x pg' :
  Pg.update_by_id n e a oi pg = (Raised x, pg') -> Pg.users pg' = Pg.users pg.
Proof.
  apply PgFacts.statement_raised_users. intros p e' p'.
  destruct (Pg.int4 a); [|intros [= _ <-]; reflexivity].
  destruct oi as [i|]; [|discriminate].
  destruct (Pg.int4 i); [|intros [= _ <-]; reflexivity].
  destruct (existsb (Pg.has_id i) (Pg.users p)); [|discriminate].
  destruct (existsb _ (Pg.users p)); [|discriminate].
  intros [= _ <-]. reflexivity.
Qed.

(** C3, as stated, fails: Alice is cached, the store fails on the
    update, the error reaches the caller, and the cache entry of
    Alice is gone. *)
Lemma failed_update_drops_cache_entry :
  let w := Scenarios.WT.alice_cached_store_down in
  let r := WriteThroughCache.update_user 7 (Scenarios.alice_aged 26) w in
  fst r = Raised PostgresError /\
  Redis.get 7 (redis w) = Some (Pg.user_of_row Scenarios.alice) /\
  Redis.get 7 (redis (snd r)) = None /\
  redis (snd r) !! 7 <> redis w !! 7.
Proof. vm_compute. repeat split; discriminate. Qed.

(** C3, amended: when the store fails on a write-through update the
    error is propagated (status 500 at the handler, counted as a
    failed write), no row changes, and the cache entry of that key is
    deleted; the entries of the other keys stay as they were. *)
Theorem failed_update_invalidates_cache (w : World) (k : Z) (u : User) (e : exn) :
  fst (WriteThroughCache.update_user k u w) = Raised e ->
  let w' := snd (WriteThroughCache.update_user k u w) in
  redis w' = Redis.del k (redis w) /\
  Redis.get k (redis w') = None /\
  (forall j : Z, j <> k -> redis w' !! j = redis w !! j) /\
  Pg.users (db w') = Pg.users (db w) /\
  errors w' = errors w ++ [e] /\
  fst (WriteThrough.update_user k u w) = HTTPException 500 /\
  failed_writes (write_stats (snd (WriteThrough.update_user k u w)))
  = failed_writes (write_stats w) + 1.
Proof.
  unfold WriteThrough.update_user, WriteThroughCache.update_user.
  cbn [db count_total set_write_stats].
  destruct (Pg.update_by_id (user_name u) (user_email u) (user_age u) (Some k) (db w))
    as [[[row|]|x] pg'] eqn:Hupd; cbn; try discriminate.
  intros [= ->].
  assert (Hdel : forall m : Redis.keyspace, Redis.get k (Redis.del k m) = None).
  { intros m. unfold Redis.get, Redis.del. rewrite lookup_delete_eq. reflexivity. }
  repeat split; auto.
  - intros j Hj. unfold Redis.del. apply lookup_delete_ne. congruence.
  - apply (update_raised_users _ _ _ _ _ _ _ Hupd).
Qed.

Lemma failed_update_invalidates_cache_witness :
  let r := WriteThroughCache.update_user 7 (Scenarios.alice_aged 26)
             Scenarios.WT.alice_cached_store_down in
  fst r = Raised PostgresError /\
  redis (snd r) = Redis.del 7 (redis Scenarios.WT.alice_cached_store_down) /\
  fst (WriteThrough.update_user 7 (Scenarios.alice_aged 26)
         Scenarios.WT.alice_cached_store_down) = HTTPException 500.
Proof.
  destruct (failed_update_invalidates_cache Scenarios.WT.alice_cached_store_down 7
              (Scenarios.alice_aged 26) PostgresError eq_refl)
    as (Hredis & _ & _ & _ & _ & Hresp & _).
  split; [reflexivity|]. split; [exact Hredis | exact Hresp].
Defined.

End WriteThroughFacts.

(** ** Refresh-ahead *)

Module RefreshAheadFacts.
Import RefreshAhead.

(** *** What a statement does to the connection and the rows *)

Lemma select_by_id_cases i pg :
  exists pg',
    Pg.users pg' = Pg.users pg /\
    (Pg.faults pg = [] -> pg' = pg) /\
    (Pg.int4 i = true /\
     Pg.select_by_id i pg = (Ok (find (Pg.has_id i) (Pg.users pg)), pg') \/
     (Pg.faults pg <> [] \/ Pg.int4 i = false) /\
     exists e, Pg.select_by_id i pg = (Raised e, pg')).
Proof.
  unfold Pg.select_by_id, Pg.statement.
  destruct (Pg.faults pg) as [|[] fs] eqn:Hf; destruct (Pg.int4 i) eqn:Hi;
    [exists pg | exists pg | exists (Pg.set_faults fs pg) ..];
    (split; [reflexivity|]); (split; [try reflexivity; discriminate|]);
    try (left; split; reflexivity);
    right; (split; [auto; left; discriminate | eexists; reflexivity]).
Qed.

(** *** The three read counters *)

Lemma counters_eq w w' :
  counters w' = counters w ->
  total_reads (refresh_stats w') = total_reads (refresh_stats w) /\
  cache_hits (refresh_stats w') = cache_hits (refresh_stats w) /\
  cache_misses (refresh_stats w') = cache_misses (refresh_stats w).
Proof.
  intros H. split; [exact (f_equal (fun p => fst (fst p)) H)|].
  split; [exact (f_equal (fun p => snd (fst p)) H) | exact (f_equal snd H)].
Qed.

Lemma track_access_counters i w :
  counters (RefreshAheadCache._track_access i w) = counters w.
Proof.
  unfold RefreshAheadCache._track_access.
  destruct (ACCESS_THRESHOLD <=? _); reflexivity.
Qed.

Lemma track_access_redis i w :
  redis (RefreshAheadCache._track_access i w) = redis w.
Proof.
  unfold RefreshAheadCache._track_access.
  destruct (ACCESS_THRESHOLD <=? _); reflexivity.
Qed.

Lemma refresh_user_counters i w :
  counters (snd (RefreshAheadCache._refresh_user i w)) = counters w.
Proof.
  unfold RefreshAheadCache._refresh_user.
  destruct (Pg.select_by_id i (db w)) as [[[row|]|e] pg']; reflexivity.
Qed.

Lemma refresh_item_counters w k :
  counters (RefreshAheadCache.refresh_item w k) = counters w.
Proof.
  unfold RefreshAheadCache.refresh_item.
  destruct (Redis.ttl k (redis w) <=? 0); [reflexivity|].
  destruct (below_refresh_threshold _); [|reflexivity].
  pose proof (refresh_user_counters k w) as H.
  destruct (RefreshAheadCache._refresh_user k w) as [[[]|e] w']; exact H.
Qed.

Lemma fold_refresh_counters l w :
  counters (fold_left RefreshAheadCache.refresh_item l w) = counters w.
Proof.
  revert w. induction l as [|k l IH]; intros w; simpl; [reflexivity|].
  rewrite IH. apply refresh_item_counters.
Qed.

Lemma refresh_hot_items_counters w :
  counters (RefreshAheadCache._refresh_hot_items w) = counters w.
Proof.
  unfold RefreshAheadCache._refresh_hot_items.
  destruct (elements (hot_items w)) as [|k l]; [reflexivity|].
  change (counters (record_hot_items ?x)) with (counters x).
  apply fold_refresh_counters.
Qed.

(** What one read does to the counters: one more read, and one more
    hit when the key is cached, one more miss otherwise. *)
Lemma get_user_counters i w :
  counters (snd (get_user i w))
  = let '(reads, hits, misses) := counters w in
    match Redis.get i (redis w) with
    | Some _ => (reads + 1, hits + 1, misses)
    | None => (reads + 1, hits, misses + 1)
    end.
Proof.
  unfold get_user, RefreshAheadCache.get_user.
  pose proof (track_access_counters i (count_read w)) as Hc.
  pose proof (track_access_redis i (count_read w)) as Hr.
  destruct (RefreshAheadCache._track_access i (count_read w)) as [m ac h pg s er].
  cbn in Hr. subst m. unfold counters in *. cbn in *.
  injection Hc as Ht Hh Hm.
  destruct (Redis.get i (redis w)); cbn.
  - rewrite Ht, Hh, Hm. reflexivity.
  - destruct (Pg.select_by_id i pg) as [[[row|]|e] pg']; cbn;
      rewrite Ht, Hh, Hm; reflexivity.
Qed.

Lemma other_events_counters w ev :
  (forall i, ev <> GetUser i) -> counters (step w ev) = counters w.
Proof.
  intros Hev. destruct ev as [i|u|i u|i| | | |s]; cbn [step].
  - destruct (Hev i). reflexivity.
  - unfold create_user, RefreshAheadCache.create_user.
    destruct (Pg.insert_returning _ _ _ _) as [[row|e] pg']; reflexivity.
  - unfold update_user, RefreshAheadCache.update_user.
    destruct (Pg.update_by_id _ _ _ _ _) as [[[row|]|e] pg']; reflexivity.
  - unfold delete_user, RefreshAheadCache.delete_user.
    destruct (Pg.delete_by_id _ _) as [[[|n]|e] pg']; reflexivity.
  - reflexivity.
  - reflexivity.
  - apply refresh_hot_items_counters.
  - reflexivity.
Qed.

Lemma step_accounted w ev : reads_accounted w -> reads_accounted (step w ev).
Proof.
  unfold reads_accounted. intros H.
  destruct ev as [i|u|i u|j| | | |s].
  2-8: (match goal with
        | |- context [step ?w0 ?e] =>
            assert (Hc : counters (step w0 e) = counters w0)
              by (apply other_events_counters; intros; discriminate)
        end;
        apply counters_eq in Hc as (Ht & Hh & Hm); lia).
  cbn [step]. pose proof (get_user_counters i w) as Hc. unfold counters in Hc.
  destruct (Redis.get i (redis w)); injection Hc as -> -> ->; lia.
Qed.

(** C9: the counters of the refresh-ahead service satisfy
    [cache_hits + cache_misses = total_reads] after every sequence of
    events that starts where they do; a read adds one to
    [total_reads] and one to exactly one of [cache_hits] (the key is
    cached) and [cache_misses] (it is not, whether or not the entity
    exists); every other event leaves the three counters alone. *)
Theorem reads_are_hits_plus_misses (w : World) :
  (forall evs : list event, reads_accounted w -> reads_accounted (run w evs)) /\
  (forall i : Z,
     let s := refresh_stats w in
     let s' := refresh_stats (snd (get_user i w)) in
     total_reads s' = total_reads s + 1 /\
     (is_Some (Redis.get i (redis w)) ->
      cache_hits s' = cache_hits s + 1 /\ cache_misses s' = cache_misses s) /\
     (Redis.get i (redis w) = None ->
      cache_hits s' = cache_hits s /\ cache_misses s' = cache_misses s + 1)) /\
  (forall ev : event,
     (forall i, ev <> GetUser i) ->
     let s := refresh_stats w in
     let s' := refresh_stats (step w ev) in
     total_reads s' = total_reads s /\
     cache_hits s' = cache_hits s /\
     cache_misses s' = cache_misses s).
Proof.
  split; [|split].
  - intros evs. revert w. induction evs as [|ev evs IH]; intros w H; [exact H|].
    apply (IH (step w ev)), step_accounted, H.
  - intros i s s'. pose proof (get_user_counters i w) as Hc.
    unfold counters in Hc. fold s s' in Hc.
    destruct (Redis.get i (redis w)) as [u|]; injection Hc as Ht Hh Hm.
    + split; [exact Ht|]. split; [auto|discriminate].
    + split; [exact Ht|]. split; [intros [? [=]]|auto].
  - intros ev Hev s s'. apply counters_eq, other_events_counters, Hev.
Qed.

Lemma reads_are_hits_plus_misses_witness :
  let w := run Scenarios.RA.fresh
               [GetUser 7; GetUser 7; GetUser 99; RefreshTick; DeleteUser 7] in
  reads_accounted w /\ counters w = (3, 1, 2).
Proof.
  split; [|vm_compute; reflexivity].
  destruct (reads_are_hits_plus_misses Scenarios.RA.fresh) as (Hrun & _).
  apply Hrun. reflexivity.
Defined.

(** *** One item of the refresh tick *)

Lemma refresh_user_frame i w :
  let w' := snd (RefreshAheadCache._refresh_user i w) in
  hot_items w' = hot_items w /\
  Pg.users (db w') = Pg.users (db w) /\
  (Pg.faults (db w) = [] -> Pg.faults (db w') = []) /\
  (forall k, k <> i -> redis w' !! k = redis w !! k) /\
  (redis w' !! i = redis w !! i \/
   exists row, find (Pg.has_id i) (Pg.users (db w)) = Some row /\
               redis w' !! i = Some (Pg.user_of_row row, CACHE_TTL)) /\
  (find (Pg.has_id i) (Pg.users (db w)) = None -> redis w' !! i = redis w !! i) /\
  (forall row, Pg.faults (db w) = [] -> Pg.int4 i = true ->
               find (Pg.has_id i) (Pg.users (db w)) = Some row ->
               redis w' !! i = Some (Pg.user_of_row row, CACHE_TTL)).
Proof.
  unfold RefreshAheadCache._refresh_user.
  destruct (select_by_id_cases i (db w))
    as (pg' & Hu & Hf & [[Hi Hsel] | [Hne [e Hsel]]]);
    rewrite Hsel; clear Hsel.
  - destruct (find (Pg.has_id i) (Pg.users (db w))) as [row|] eqn:Hfind;
      cbn; unfold Redis.setex.
    + split; [reflexivity|]. split; [exact Hu|].
      split; [intros H; rewrite (Hf H); exact H|].
      split; [intros k Hk; apply lookup_insert_ne; congruence|].
      split; [right; exists row; split; [reflexivity | apply lookup_insert_eq]|].
      split; [discriminate|].
      intros row' _ _ [= <-]. apply lookup_insert_eq.
    + split; [reflexivity|]. split; [exact Hu|].
      split; [intros H; rewrite (Hf H); exact H|].
      split; [reflexivity|]. split; [left; reflexivity|].
      split; [reflexivity | discriminate].
  - cbn. split; [reflexivity|]. split; [exact Hu|].
    split; [intros H; rewrite (Hf H); exact H|].
    split; [reflexivity|]. split; [left; reflexivity|].
    split; [reflexivity | intros row H Hi; destruct Hne; congruence].
Qed.

Section OneItem.
Variables (w : World) (j : Z).
Let w' := RefreshAheadCache.refresh_item w j.
Let ttl := Redis.ttl j (redis w).

Lemma refresh_item_db :
  Pg.users (db w') = Pg.users (db w) /\
  (Pg.faults (db w) = [] -> Pg.faults (db w') = []).
Proof.
  subst w'. unfold RefreshAheadCache.refresh_item.
  destruct (Redis.ttl j (redis w) <=? 0); [auto|].
  destruct (below_refresh_threshold _); [|auto].
  destruct (refresh_user_frame j w) as (_ & Hu & Hf & _).
  destruct (RefreshAheadCache._refresh_user j w) as [[[]|e] w1]; auto.
Qed.

(** The other keys keep their cache entry and their place in the
    hot set. *)
Lemma refresh_item_other k :
  k <> j ->
  redis w' !! k = redis w !! k /\ (k ∈ hot_items w' <-> k ∈ hot_items w).
Proof.
  intros Hk. subst w'. unfold RefreshAheadCache.refresh_item.
  destruct (Redis.ttl j (redis w) <=? 0).
  { cbn. split; [reflexivity|].
    rewrite elem_of_difference, elem_of_singleton. intuition. }
  destruct (below_refresh_threshold _); [|auto].
  destruct (refresh_user_frame j w) as (Hh & _ & _ & Hr & _).
  destruct (RefreshAheadCache._refresh_user j w) as [[[]|e] w1];
    cbn in *; rewrite Hh, (Hr k Hk); auto.
Qed.

Lemma refresh_item_demotes :
  ttl <= 0 -> (j ∉ hot_items w') /\ redis w' = redis w.
Proof.
  intros Ht. subst w' ttl. unfold RefreshAheadCache.refresh_item.
  rewrite (proj2 (Z.leb_le _ _) Ht). cbn. split; [|reflexivity].
  rewrite elem_of_difference, elem_of_singleton. intros [_ H]. apply H. reflexivity.
Qed.

Lemma refresh_item_keeps :
  0 < ttl ->
  hot_items w' = hot_items w /\
  (redis w' !! j = redis w !! j \/
   exists row, find (Pg.has_id j) (Pg.users (db w)) = Some row /\
               redis w' !! j = Some (Pg.user_of_row row, CACHE_TTL)).
Proof.
  intros Ht. subst w' ttl. unfold RefreshAheadCache.refresh_item.
  rewrite (proj2 (Z.leb_gt _ _) Ht).
  destruct (below_refresh_threshold _); [|auto].
  destruct (refresh_user_frame j w) as (Hh & _ & _ & _ & Hr & _).
  destruct (RefreshAheadCache._refresh_user j w) as [[[]|e] w1]; cbn in *; auto.
Qed.

Lemma refresh_item_not_durable :
  0 < ttl -> find (Pg.has_id j) (Pg.users (db w)) = None ->
  redis w' !! j = redis w !! j.
Proof.
  intros Ht Hfind. subst w' ttl. unfold RefreshAheadCache.refresh_item.
  rewrite (proj2 (Z.leb_gt _ _) Ht).
  destruct (below_refresh_threshold _); [|auto].
  destruct (refresh_user_frame j w) as (_ & _ & _ & _ & _ & Hr & _).
  destruct (RefreshAheadCache._refresh_user j w) as [[[]|e] w1]; cbn in *; auto.
Qed.

Lemma refresh_item_reloads row :
  0 < ttl -> below_refresh_threshold ttl = true ->
  Pg.faults (db w) = [] -> Pg.int4 j = true ->
  find (Pg.has_id j) (Pg.users (db w)) = Some row ->
  redis w' !! j = Some (Pg.user_of_row row, CACHE_TTL).
Proof.
  intros Ht Hlow Hf Hj Hfind. subst w' ttl. unfold RefreshAheadCache.refresh_item.
  rewrite (proj2 (Z.leb_gt _ _) Ht), Hlow.
  destruct (refresh_user_frame j w) as (_ & _ & _ & _ & _ & _ & Hr).
  specialize (Hr row Hf Hj Hfind).
  destruct (RefreshAheadCache._refresh_user j w) as [[[]|e] w1]; cbn in *; auto.
Qed.

(** A key that is due is reloaded exactly when its lookup succeeds
    and finds a row; otherwise its entry stays as it was. *)
Lemma refresh_item_by_lookup :
  0 < ttl -> below_refresh_threshold ttl = true ->
  match fst (Pg.select_by_id j (db w)) with
  | Ok (Some row) => redis w' !! j = Some (Pg.user_of_row row, CACHE_TTL)
  | Ok None | Raised _ => redis w' !! j = redis w !! j
  end.
Proof.
  intros Ht Hlow. subst w' ttl. unfold RefreshAheadCache.refresh_item.
  rewrite (proj2 (Z.leb_gt _ _) Ht), Hlow.
  unfold RefreshAheadCache._refresh_user.
  destruct (Pg.select_by_id j (db w)) as [[[row|]|e] pg']; cbn; try reflexivity.
  unfold Redis.setex. apply lookup_insert_eq.
Qed.

End OneItem.

(** *** The whole tick *)

Abbreviation scan := (fold_left RefreshAheadCache.refresh_item).

Lemma ttl_lookup k (m m' : Redis.keyspace) :
  m' !! k = m !! k -> Redis.ttl k m' = Redis.ttl k m.
Proof. unfold Redis.ttl. intros ->. reflexivity. Qed.

Lemma scan_db l w :
  Pg.users (db (scan l w)) = Pg.users (db w) /\
  (Pg.faults (db w) = [] -> Pg.faults (db (scan l w)) = []).
Proof.
  revert w. induction l as [|j l IH]; intros w; simpl; [auto|].
  destruct (IH (RefreshAheadCache.refresh_item w j)) as [Hu Hf].
  destruct (refresh_item_db w j) as [Hu' Hf'].
  rewrite Hu, Hu'. auto.
Qed.

Lemma scan_other l w k :
  k ∉ l ->
  redis (scan l w) !! k = redis w !! k /\ (k ∈ hot_items (scan l w) <-> k ∈ hot_items w).
Proof.
  revert w. induction l as [|j l IH]; intros w Hk; simpl; [tauto|].
  apply not_elem_of_cons in Hk as [Hkj Hkl].
  destruct (IH (RefreshAheadCache.refresh_item w j) Hkl) as [Hr Hh].
  destruct (refresh_item_other w j k Hkj) as [Hr' Hh'].
  rewrite Hr, Hr', Hh, Hh'. tauto.
Qed.

(** In a scan without repetition the fate of a key is decided by its
    own item, which sees the key as the tick found it: the items
    scanned before it have left its entry alone. *)
Lemma scan_split l w k :
  NoDup l -> k ∈ l ->
  exists l1 l2,
    l = l1 ++ k :: l2 /\
    redis (scan l1 w) !! k = redis w !! k /\
    (k ∈ hot_items (scan l1 w) <-> k ∈ hot_items w) /\
    redis (scan l w) !! k = redis (RefreshAheadCache.refresh_item (scan l1 w) k) !! k /\
    (k ∈ hot_items (scan l w)
     <-> k ∈ hot_items (RefreshAheadCache.refresh_item (scan l1 w) k)).
Proof.
  intros Hnd Hin.
  apply list_elem_of_split in Hin as (l1 & l2 & ->).
  apply NoDup_app in Hnd as (_ & Hl1 & Hl2).
  apply NoDup_cons in Hl2 as [Hk2 _].
  assert (Hk1 : k ∉ l1).
  { intros Hin. apply (Hl1 k Hin). apply elem_of_cons. left. reflexivity. }
  exists l1, l2.
  destruct (scan_other l1 w k Hk1) as [Hr Hh].
  rewrite fold_left_app. simpl.
  destruct (scan_other l2 (RefreshAheadCache.refresh_item (scan l1 w) k) k Hk2) as [Hr' Hh'].
  auto 10.
Qed.

Lemma scan_at l w k :
  NoDup l -> k ∈ l ->
  exists wa,
    redis wa !! k = redis w !! k /\
    (k ∈ hot_items wa <-> k ∈ hot_items w) /\
    Pg.users (db wa) = Pg.users (db w) /\
    (Pg.faults (db w) = [] -> Pg.faults (db wa) = []) /\
    redis (scan l w) !! k = redis (RefreshAheadCache.refresh_item wa k) !! k /\
    (k ∈ hot_items (scan l w) <-> k ∈ hot_items (RefreshAheadCache.refresh_item wa k)).
Proof.
  intros Hnd Hin.
  destruct (scan_split l w k Hnd Hin) as (l1 & l2 & _ & Hr & Hh & Hr' & Hh').
  exists (scan l1 w).
  destruct (scan_db l1 w) as [Hu Hf].
  auto 10.
Qed.

Lemma refresh_hot_items_scan w :
  redis (RefreshAheadCache._refresh_hot_items w) = redis (scan (elements (hot_items w)) w) /\
  hot_items (RefreshAheadCache._refresh_hot_items w)
  = hot_items (scan (elements (hot_items w)) w).
Proof.
  unfold RefreshAheadCache._refresh_hot_items.
  destruct (elements (hot_items w)); auto.
Qed.

Lemma tick_at w k :
  k ∈ hot_items w ->
  let w' := RefreshAheadCache._refresh_hot_items w in
  exists wa,
    redis wa !! k = redis w !! k /\
    k ∈ hot_items wa /\
    Pg.users (db wa) = Pg.users (db w) /\
    (Pg.faults (db w) = [] -> Pg.faults (db wa) = []) /\
    redis w' !! k = redis (RefreshAheadCache.refresh_item wa k) !! k /\
    (k ∈ hot_items w' <-> k ∈ hot_items (RefreshAheadCache.refresh_item wa k)).
Proof.
  intros Hk w'. subst w'.
  destruct (refresh_hot_items_scan w) as [-> ->].
  destruct (scan_at (elements (hot_items w)) w k) as (wa & Hr & Hh & Hu & Hf & Hr' & Hh').
  - apply NoDup_elements.
  - apply elem_of_elements, Hk.
  - exists wa. rewrite Hh. auto 10.
Qed.

(** C4, as stated, fails: Alice is hot and cached with five seconds
    left, below the threshold of fifteen, and her row is no longer in
    the table; after the tick she is still hot and still has five
    seconds left: neither reloaded nor demoted.  The same happens when
    her row is there but the lookup fails. *)
Lemma hot_key_left_with_low_lifetime :
  let w := Scenarios.RA.alice_hot_not_durable in
  let w' := RefreshAheadCache._refresh_hot_items w in
  let v := Scenarios.RA.alice_hot_store_down in
  let v' := RefreshAheadCache._refresh_hot_items v in
  (elements (hot_items w) = [7] /\
   Redis.ttl 7 (redis w) = 5 /\
   below_refresh_threshold 5 = true /\
   elements (hot_items w') = [7] /\
   Redis.ttl 7 (redis w') = 5 /\
   Redis.ttl 7 (redis w') <> CACHE_TTL) /\
  (elements (hot_items v) = [7] /\
   Redis.ttl 7 (redis v) = 5 /\
   elements (hot_items v') = [7] /\
   Redis.ttl 7 (redis v') = 5 /\
   errors v' = [PostgresError]).
Proof. vm_compute. repeat split; discriminate. Qed.

(** The item of a hot key within the tick: the keys scanned before it
    have left its entry alone, and its own item decides its fate. *)
Lemma tick_split w k :
  k ∈ hot_items w ->
  let w' := RefreshAheadCache._refresh_hot_items w in
  exists l1 l2,
    elements (hot_items w) = l1 ++ k :: l2 /\
    redis (scan l1 w) !! k = redis w !! k /\
    k ∈ hot_items (scan l1 w) /\
    redis w' !! k = redis (RefreshAheadCache.refresh_item (scan l1 w) k) !! k /\
    (k ∈ hot_items w'
     <-> k ∈ hot_items (RefreshAheadCache.refresh_item (scan l1 w) k)).
Proof.
  intros Hk w'. subst w'.
  destruct (refresh_hot_items_scan w) as [-> ->].
  destruct (scan_split (elements (hot_items w)) w k)
    as (l1 & l2 & Hsplit & Hr & Hh & Hr' & Hh').
  - apply NoDup_elements.
  - apply elem_of_elements, Hk.
  - exists l1, l2. rewrite Hh. auto 10.
Qed.

(** C4, amended: for a hot key whose lifetime query is at most zero
    the tick demotes it; a hot key with a positive lifetime below the
    threshold stays hot, and what happens to its entry is decided by
    the lookup the tick makes for it, after the keys before it in the
    scan: when that lookup succeeds and finds the entity (which is then
    the row of the table) the entry is reloaded with the full
    lifetime; when it finds nothing, or raises, the entry keeps the
    lifetime it had.  Over a connection with no pending fault the
    lookup of a key that fits the 32-bit column succeeds, so the entry
    is reloaded exactly when the table holds the entity. *)
Theorem refresh_tick_on_low_lifetime (w : World) (k : Z) :
  k ∈ hot_items w ->
  let ttl := Redis.ttl k (redis w) in
  let w' := RefreshAheadCache._refresh_hot_items w in
  (ttl <= 0 -> k ∉ hot_items w') /\
  (0 < ttl -> below_refresh_threshold ttl = true ->
   k ∈ hot_items w' /\
   (exists before after : list Z,
      elements (hot_items w) = before ++ k :: after /\
      let lookup :=
        fst (Pg.select_by_id k (db (fold_left RefreshAheadCache.refresh_item before w))) in
      (forall row,
         lookup = Ok (Some row) ->
         find (Pg.has_id k) (Pg.users (db w)) = Some row /\
         redis w' !! k = Some (Pg.user_of_row row, CACHE_TTL)) /\
      (lookup = Ok None -> redis w' !! k = redis w !! k) /\
      (forall e, lookup = Raised e -> redis w' !! k = redis w !! k) /\
      (Pg.faults (db w) = [] ->
       lookup = if Pg.int4 k
                then Ok (find (Pg.has_id k) (Pg.users (db w)))
                else Raised DataError)) /\
   (find (Pg.has_id k) (Pg.users (db w)) = None ->
    redis w' !! k = redis w !! k) /\
   (forall row,
      Pg.faults (db w) = [] -> Pg.int4 k = true ->
      find (Pg.has_id k) (Pg.users (db w)) = Some row ->
      redis w' !! k = Some (Pg.user_of_row row, CACHE_TTL))).
Proof.
  intros Hk ttl w'.
  destruct (tick_split w k Hk) as (l1 & l2 & Hsplit & Hr & Hh & Hr' & Hh').
  fold w' in Hr', Hh'.
  destruct (scan_db l1 w) as [Hu Hf].
  set (wa := scan l1 w) in *.
  pose proof (ttl_lookup k _ _ Hr) as Httl. fold ttl in Httl.
  split.
  - intros Ht. rewrite Hh'. apply refresh_item_demotes. lia.
  - intros Ht Hlow.
    assert (Hpos : 0 < Redis.ttl k (redis wa)) by lia.
    assert (Hlow' : below_refresh_threshold (Redis.ttl k (redis wa)) = true)
      by (rewrite Httl; exact Hlow).
    destruct (refresh_item_keeps wa k Hpos) as [Hkeep _].
    split; [rewrite Hh', Hkeep; exact Hh|].
    split; [|split].
    + exists l1, l2. split; [exact Hsplit|]. fold wa. cbv zeta.
      pose proof (refresh_item_by_lookup wa k Hpos Hlow') as Hby.
      split; [|split; [|split]].
      * intros row Hl. rewrite Hl in Hby. split; [|rewrite Hr'; exact Hby].
        destruct (select_by_id_cases k (db wa)) as (pg' & _ & _ & [[_ Hsel] | [_ [e Hsel]]]);
          rewrite Hsel in Hl; cbn in Hl; [|discriminate].
        rewrite <- Hu. congruence.
      * intros Hl. rewrite Hl in Hby. rewrite Hr', Hby. exact Hr.
      * intros e Hl. rewrite Hl in Hby. rewrite Hr', Hby. exact Hr.
      * intros Hnf. rewrite (PgFacts.select_no_faults k (db wa) (Hf Hnf)), Hu.
        destruct (Pg.int4 k); reflexivity.
    + intros Hfind. rewrite Hr', <- Hr.
      apply refresh_item_not_durable; [exact Hpos | rewrite Hu; exact Hfind].
    + intros row Hnf Hint Hfind. rewrite Hr'.
      apply refresh_item_reloads; [exact Hpos | exact Hlow' | auto | exact Hint |].
      rewrite Hu. exact Hfind.
Qed.

Lemma refresh_tick_on_low_lifetime_witness :
  let w' := RefreshAheadCache._refresh_hot_items Scenarios.RA.alice_hot in
  let v' := RefreshAheadCache._refresh_hot_items Scenarios.RA.alice_hot_store_down in
  (7 ∈ hot_items w') /\
  redis w' !! 7 = Some (Pg.user_of_row Scenarios.alice, CACHE_TTL) /\
  redis v' !! 7 = redis Scenarios.RA.alice_hot_store_down !! 7.
Proof.
  assert (Hhot : 7 ∈ hot_items Scenarios.RA.alice_hot) by (vm_compute; reflexivity).
  assert (Hhot' : 7 ∈ hot_items Scenarios.RA.alice_hot_store_down)
    by (vm_compute; reflexivity).
  destruct (refresh_tick_on_low_lifetime Scenarios.RA.alice_hot 7 Hhot) as [_ Hlow].
  destruct Hlow as (Hkeep & _ & _ & Hreload); [reflexivity | reflexivity |].
  destruct (refresh_tick_on_low_lifetime Scenarios.RA.alice_hot_store_down 7 Hhot')
    as [_ Hdown].
  destruct Hdown as (_ & (before & after & Hsplit & _ & _ & Hraised & _) & _);
    [reflexivity | reflexivity |].
  split; [exact Hkeep|].
  split; [exact (Hreload Scenarios.alice eq_refl eq_refl eq_refl)|].
  apply (Hraised PostgresError).
  assert (Hel : elements (hot_items Scenarios.RA.alice_hot_store_down) = [7])
    by (vm_compute; reflexivity).
  rewrite Hel in Hsplit.
  destruct before as [|x before]; [reflexivity|].
  destruct before; discriminate Hsplit.
Defined.

(** *** The hot set under the events *)

Lemma track_access_hot i w k :
  k ∈ hot_items w -> k ∈ hot_items (RefreshAheadCache._track_access i w).
Proof.
  intros Hk. unfold RefreshAheadCache._track_access.
  destruct (ACCESS_THRESHOLD <=? _); [|exact Hk].
  cbn. apply elem_of_union. right. exact Hk.
Qed.

Lemma get_user_hot i w :
  hot_items (snd (get_user i w))
  = hot_items (RefreshAheadCache._track_access i (count_read w)).
Proof.
  unfold get_user, RefreshAheadCache.get_user.
  destruct (Redis.get i _); [reflexivity|].
  cbn [db count_miss set_refresh_stats].
  destruct (Pg.select_by_id i _) as [[[row|]|e] pg']; reflexivity.
Qed.

(** The world [alice_hot] is what three reads of Alice and fifty-five
    seconds make of a fresh service. *)
Lemma alice_hot_reachable :
  run Scenarios.RA.fresh [GetUser 7; GetUser 7; GetUser 7; Elapse 55]
  = Scenarios.RA.alice_hot.
Proof. vm_compute. reflexivity. Qed.

(** C6, as stated, fails: Alice is hot and her cache entry has five
    seconds left; deleting her through the handler, which is not the
    scheduler, takes her key out of the hot set. *)
Lemma delete_user_removes_hot_key :
  let w := Scenarios.RA.alice_hot in
  elements (hot_items w) = [7] /\
  Redis.ttl 7 (redis w) = 5 /\
  fst (delete_user 7 w) = Reply 204 tt /\
  elements (hot_items (step w (DeleteUser 7))) = [].
Proof. vm_compute. repeat split. Qed.

(** C6, amended: a key of the hot set is still in it after any event
    of the service, except after a refresh tick that finds its
    lifetime query at most zero, and after a delete of that very
    entity that succeeds (status 204). *)
Theorem hot_membership_persists (w : World) (ev : event) (k : Z) :
  k ∈ hot_items w ->
  k ∈ hot_items (step w ev) \/
  (ev = RefreshTick /\ Redis.ttl k (redis w) <= 0) \/
  (ev = DeleteUser k /\ fst (delete_user k w) = Reply 204 tt).
Proof.
  intros Hk. destruct ev as [i|u|i u|i| | | |s]; cbn [step].
  - left. rewrite get_user_hot. apply track_access_hot. exact Hk.
  - left. unfold create_user, RefreshAheadCache.create_user.
    destruct (Pg.insert_returning _ _ _ _) as [[row|e] pg']; exact Hk.
  - left. unfold update_user, RefreshAheadCache.update_user.
    destruct (Pg.update_by_id _ _ _ _ _) as [[[row|]|e] pg']; exact Hk.
  - unfold delete_user, RefreshAheadCache.delete_user.
    destruct (decide (i = k)) as [->|Hik].
    + destruct (Pg.delete_by_id (Some k) (db w)) as [[[|n]|e] pg']; cbn; auto.
    + left. destruct (Pg.delete_by_id (Some i) (db w)) as [[[|n]|e] pg']; cbn;
        try exact Hk.
      apply elem_of_difference. split; [exact Hk|].
      rewrite elem_of_singleton. congruence.
  - left. exact Hk.
  - left. exact Hk.
  - destruct (Z_le_gt_dec (Redis.ttl k (redis w)) 0) as [Hle|Hgt]; [auto|].
    left. destruct (tick_at w k Hk) as (wa & Hr & Hh & _ & _ & _ & Hh').
    apply Hh'. destruct (refresh_item_keeps wa k) as [-> _]; [|exact Hh].
    rewrite (ttl_lookup k _ _ Hr). lia.
  - left. exact Hk.
Qed.

Lemma hot_membership_persists_witness :
  Redis.get 7 (redis (step Scenarios.RA.alice_hot (Elapse 10))) = None /\
  7 ∈ hot_items (step Scenarios.RA.alice_hot (Elapse 10)).
Proof.
  split; [vm_compute; reflexivity|].
  assert (Hhot : 7 ∈ hot_items Scenarios.RA.alice_hot) by (vm_compute; reflexivity).
  destruct (hot_membership_persists Scenarios.RA.alice_hot (Elapse 10) 7 Hhot)
    as [H | [[H _] | [H _]]]; [exact H | discriminate H | discriminate H].
Defined.

End RefreshAheadFacts.

(** * Further properties *)

(** ** What the statements do to the rows *)

Module StoreFacts.
Import Pg.

Lemma find_app_fresh {A} (p : A -> bool) l x :
  existsb p l = false -> p x = true -> find p (l ++ [x]) = Some x.
Proof.
  induction l as [|y l IH]; simpl; intros Hl Hx.
  - rewrite Hx. reflexivity.
  - destruct (p y); simpl in *; [discriminate | auto].
Qed.

Lemma find_app_old {A} (p : A -> bool) l x y :
  find p l = Some y -> find p (l ++ [x]) = Some y.
Proof.
  induction l as [|z l IH]; simpl; [discriminate|].
  destruct (p z); auto.
Qed.

Section Replace.
Variables (i : Z) (r' : Row).
Hypothesis Hr' : row_id r' = i.
Let replace (r : Row) : Row := if has_id i r then r' else r.

Lemma find_replace_same rows :
  existsb (has_id i) rows = true -> find (has_id i) (map replace rows) = Some r'.
Proof.
  induction rows as [|r rows IH]; simpl; [discriminate|].
  subst replace. cbv beta. destruct (has_id i r) eqn:Hr; simpl.
  - intros _. unfold has_id at 1. rewrite Hr', Z.eqb_refl. reflexivity.
  - rewrite Hr. exact IH.
Qed.

Lemma find_replace_other j rows :
  j <> i -> find (has_id j) (map replace rows) = find (has_id j) rows.
Proof.
  intros Hj. induction rows as [|r rows IH]; simpl; [reflexivity|].
  subst replace. cbv beta. destruct (has_id i r) eqn:Hr.
  - apply Z.eqb_eq in Hr.
    assert (has_id j r' = false) as -> by (apply Z.eqb_neq; congruence).
    assert (has_id j r = false) as -> by (apply Z.eqb_neq; congruence).
    exact IH.
  - destruct (has_id j r); [reflexivity | exact IH].
Qed.

End Replace.

Lemma find_filter_other i j rows :
  j <> i ->
  find (has_id j) (List.filter (fun r => negb (has_id i r)) rows) = find (has_id j) rows.
Proof.
  intros Hj. induction rows as [|r rows IH]; simpl; [reflexivity|].
  destruct (has_id i r) eqn:Hi; simpl.
  - apply Z.eqb_eq in Hi.
    assert (has_id j r = false) as -> by (apply Z.eqb_neq; congruence).
    exact IH.
  - destruct (has_id j r); [reflexivity | exact IH].
Qed.

Lemma find_filter_same i rows :
  find (has_id i) (List.filter (fun r => negb (has_id i r)) rows) = None.
Proof.
  induction rows as [|r rows IH]; simpl; [reflexivity|].
  destruct (has_id i r) eqn:Hi; simpl; [exact IH|].
  rewrite Hi. exact IH.
Qed.

Lemma filter_nil_existsb {A} (p : A -> bool) l :
  length (List.filter p l) = 0%nat -> existsb p l = false.
Proof.
  induction l as [|x l IH]; simpl; [reflexivity|].
  destruct (p x); simpl; [discriminate | exact IH].
Qed.

(** The outcomes of [SELECT ... WHERE id = $1]. *)
Lemma select_cases i pg :
  match select_by_id i pg with
  | (Ok r, pg') => r = find (has_id i) (users pg) /\ users pg' = users pg
  | (Raised e, pg') => users pg' = users pg /\ (faults pg <> [] \/ int4 i = false)
  end.
Proof.
  unfold select_by_id, statement.
  destruct (faults pg) as [|[] fs]; destruct (int4 i); cbn; auto;
    (split; [reflexivity|]); left; discriminate.
Qed.

(** The outcomes of [INSERT ... RETURNING]. *)
Lemma insert_cases n e a pg :
  match insert_returning n e a pg with
  | (Ok row, pg') =>
      row = mkRow (users_id_seq pg) n e a /\
      existsb (has_email e) (users pg) = false /\
      existsb (has_id (users_id_seq pg)) (users pg) = false /\
      users pg' = users pg ++ [row]
  | (Raised e', pg') => users pg' = users pg
  end.
Proof.
  unfold insert_returning, statement.
  destruct (faults pg) as [|[] fs]; cbn; try reflexivity;
    destruct (int4 a); cbn; try reflexivity;
    destruct (existsb (has_email e) (users pg)); cbn; try reflexivity;
    destruct (existsb (has_id (users_id_seq pg)) (users pg)); cbn; auto.
Qed.

(** The outcomes of [UPDATE ... WHERE id = $4 RETURNING]. *)
Lemma update_cases n e a i pg :
  match update_by_id n e a (Some i) pg with
  | (Ok (Some row), pg') =>
      row = mkRow i n e a /\
      existsb (has_id i) (users pg) = true /\
      users pg' = map (fun r => if has_id i r then row else r) (users pg)
  | (Ok None, pg') => existsb (has_id i) (users pg) = false /\ users pg' = users pg
  | (Raised e', pg') => users pg' = users pg
  end.
Proof.
  unfold update_by_id, statement.
  destruct (faults pg) as [|[] fs]; cbn; try reflexivity;
    destruct (int4 a); cbn; try reflexivity;
    destruct (int4 i); cbn; try reflexivity;
    destruct (existsb (has_id i) (users pg)); cbn; auto;
    destruct (existsb _ (users pg)); cbn; auto.
Qed.

(** The outcomes of [DELETE ... WHERE id = $1]. *)
Lemma delete_cases i pg :
  match delete_by_id (Some i) pg with
  | (Ok n, pg') =>
      n = length (List.filter (has_id i) (users pg)) /\
      users pg' = List.filter (fun r => negb (has_id i r)) (users pg)
  | (Raised e', pg') => users pg' = users pg
  end.
Proof.
  unfold delete_by_id, statement.
  destruct (faults pg) as [|[] fs]; destruct (int4 i); cbn; auto.
Qed.

(** A statement that succeeded was given arguments that fit their
    columns. *)
Lemma delete_ok_in_range i pg n pg' :
  delete_by_id (Some i) pg = (Ok n, pg') -> int4 i = true.
Proof.
  unfold delete_by_id, statement.
  destruct (faults pg) as [|[] fs]; destruct (int4 i); cbn; congruence.
Qed.

Lemma select_ok_in_range i pg r pg' :
  select_by_id i pg = (Ok r, pg') -> int4 i = true.
Proof.
  unfold select_by_id, statement.
  destruct (faults pg) as [|[] fs]; destruct (int4 i); cbn; congruence.
Qed.

End StoreFacts.

(** ** Write-behind: the queue, the stats and the store *)

Module WriteBehindMore.
Import WriteBehind.

Abbreviation flush := WriteBehindCache._flush_to_database.
Abbreviation process_writes := WriteBehindCache.process_writes.
Abbreviation apply_write := WriteBehindCache.apply_write.

(** A write that raises changes no row. *)
Lemma apply_write_raised_users m pg e pg' :
  apply_write m pg = (Raised e, pg') -> Pg.users pg' = Pg.users pg.
Proof.
  unfold apply_write, WriteBehindCache.apply_write.
  destruct (operation m), (user m) as [u|i]; try (intros [= _ <-]; reflexivity).
  - intros Hup.
    pose proof (PgFacts.upsert_cases (user_name u) (user_email u) (user_age u) pg) as Hc.
    rewrite Hup in Hc. exact Hc.
  - destruct (Pg.update_by_id _ _ _ _ pg) as [[r|x] p'] eqn:Hupd; [discriminate|].
    intros [= _ <-]. apply (WriteThroughFacts.update_raised_users _ _ _ _ _ _ _ Hupd).
  - destruct (user_id u) as [i|].
    + pose proof (StoreFacts.delete_cases i pg) as Hd.
      destruct (Pg.delete_by_id (Some i) pg) as [[n|x] p']; [discriminate|].
      intros [= _ <-]. exact Hd.
    + unfold Pg.delete_by_id, Pg.statement.
      destruct (Pg.faults pg) as [|[] fs]; cbn; try discriminate.
      intros [= _ <-]. reflexivity.
  - pose proof (StoreFacts.delete_cases i pg) as Hd.
    destruct (Pg.delete_by_id (Some i) pg) as [[n|x] p']; [discriminate|].
    intros [= _ <-]. exact Hd.
Qed.

(** What one pass over a batch does to the stats: every write of the
    batch is counted as flushed or is back in the queue. *)
Lemma process_writes_stats ws w :
  let w' := process_writes ws w in
  cached_writes (write_stats w') = cached_writes (write_stats w) /\
  db_flushes (write_stats w') + llen w'
  = db_flushes (write_stats w) + llen w + Z.of_nat (length ws) /\
  redis w' = redis w /\ now w' = now w /\ user_id_counter w' = user_id_counter w.
Proof.
  revert w. induction ws as [|x ws IH]; intros w; cbn [WriteBehindCache.process_writes].
  - cbn. repeat split. lia.
  - destruct (WriteBehindCache.apply_write x (db w)) as [[[]|e] pg'].
    + destruct (IH (count_db_flush (set_db pg' w))) as (Hc & Hf & Hr & Hn & Hu).
      cbv zeta. rewrite Hc, Hf, Hr, Hn, Hu. cbn [length]. unfold llen. cbn.
      repeat split. lia.
    + destruct (IH (rpush x (log_error e (set_db pg' w)))) as (Hc & Hf & Hr & Hn & Hu).
      cbv zeta. rewrite Hc, Hf, Hr, Hn, Hu. cbn [length]. unfold llen. cbn.
      rewrite length_app. cbn. repeat split. lia.
Qed.

Lemma take_drop_length {A} (n : nat) (q : list A) :
  Z.of_nat (length (drop n q)) + Z.of_nat (length (take n q)) = Z.of_nat (length q).
Proof. rewrite <- (take_drop n q) at 3. rewrite length_app. lia. Qed.

Lemma flush_stats w :
  stats_accounted w -> stats_accounted (flush w).
Proof.
  unfold stats_accounted. intros [Hp Hc].
  unfold WriteBehindCache._flush_to_database.
  rewrite WriteBehindFacts.lpop_batch_take_drop.
  destruct (take BATCH_SIZE (write_queue w)) as [|x ws] eqn:Htake.
  - assert (Hq : write_queue w = []).
    { destruct (write_queue w); [reflexivity | discriminate]. }
    unfold llen in *. cbn. rewrite Hq in *. cbn. auto.
  - destruct (process_writes_stats (x :: ws)
                (set_write_queue (drop BATCH_SIZE (write_queue w)) w))
      as (Hc' & Hf' & _).
    pose proof (take_drop_length BATCH_SIZE (write_queue w)) as Hlen.
    rewrite Htake in Hlen.
    set (w1 := WriteBehindCache.process_writes (x :: ws) _) in *.
    split; [reflexivity|].
    change (cached_writes (write_stats (record_flush w1)))
      with (cached_writes (write_stats w1)).
    change (db_flushes (write_stats (record_flush w1)))
      with (db_flushes (write_stats w1)).
    change (llen (record_flush w1)) with (llen w1).
    change (llen (set_write_queue (drop BATCH_SIZE (write_queue w)) w))
      with (Z.of_nat (length (drop BATCH_SIZE (write_queue w)))) in Hf'.
    change (write_stats (set_write_queue (drop BATCH_SIZE (write_queue w)) w))
      with (write_stats w) in Hc', Hf'.
    unfold llen in Hp, Hc. lia.
Qed.

Lemma write_behind_get_user_stats i w :
  write_stats (snd (WriteBehind.get_user i w)) = write_stats w /\
  write_queue (snd (WriteBehind.get_user i w)) = write_queue w.
Proof.
  unfold WriteBehind.get_user, WriteBehindCache.get_user.
  destruct (Redis.get i (redis w)); [auto|].
  destruct (Pg.select_by_id i (db w)) as [[[row|]|e] pg']; auto.
Qed.

Lemma step_stats w ev : stats_accounted w -> stats_accounted (step w ev).
Proof.
  intros H. destruct ev as [i|u|i u|i| | | |s]; cbn [step].
  - destruct (write_behind_get_user_stats i w) as [Hs Hq].
    unfold stats_accounted, llen in *. rewrite Hs, Hq. exact H.
  - destruct H as [Hp Hc]. unfold stats_accounted in *. cbn. unfold llen in *. cbn.
    rewrite length_app. cbn. lia.
  - destruct H as [Hp Hc]. unfold stats_accounted in *. cbn. unfold llen in *. cbn.
    rewrite length_app. cbn. lia.
  - destruct H as [Hp Hc]. unfold stats_accounted in *. cbn. unfold llen in *. cbn.
    rewrite length_app. cbn. lia.
  - apply flush_stats, H.
  - exact H.
  - apply flush_stats, H.
  - exact H.
Qed.

(** X1: the stats of the write-behind service keep two relations
    through every request, flush tick and passing of time:
    [pending_writes] is the length of the queue, and [cached_writes] is
    [db_flushes] plus the length of the queue (a failed write is
    requeued and counted once, when it finally goes through). *)
Theorem stats_follow_the_queue (w : World) (evs : list event) :
  stats_accounted w -> stats_accounted (run w evs).
Proof.
  revert w. induction evs as [|ev evs IH]; intros w H; [exact H|].
  apply (IH (step w ev)), step_stats, H.
Qed.

Lemma stats_follow_the_queue_witness :
  let w := run Scenarios.WB.fresh
               [CreateUser Scenarios.carol; UpdateUser 7 (Scenarios.alice_aged 30);
                DeleteUser 99; FlushTick; GetUser 7] in
  stats_accounted w /\ cached_writes (write_stats w) = 3 /\ llen w = 0.
Proof.
  split; [|vm_compute; split; reflexivity].
  apply (stats_follow_the_queue Scenarios.WB.fresh). split; reflexivity.
Defined.

(** X2: a flush tick in which every popped write succeeds applies the
    first [BATCH_SIZE] writes to the store in the order of the queue,
    leaves the others queued in their order, logs nothing, counts one
    flush per write, and records the time and the pending length. *)
Theorem flush_applies_batch_in_order (w : World) (pg : Pg.t) :
  write_queue w <> [] ->
  apply_in_order (take BATCH_SIZE (write_queue w)) (db w) = Some pg ->
  let w' := flush w in
  db w' = pg /\
  write_queue w' = drop BATCH_SIZE (write_queue w) /\
  errors w' = errors w /\
  redis w' = redis w /\
  db_flushes (write_stats w')
  = db_flushes (write_stats w) + Z.of_nat (length (take BATCH_SIZE (write_queue w))) /\
  pending_writes (write_stats w') = Z.of_nat (length (drop BATCH_SIZE (write_queue w))) /\
  last_flush (write_stats w') = Some (now w).
Proof.
  intros Hne Hall w'. subst w'.
  destruct (take BATCH_SIZE (write_queue w)) as [|x ws] eqn:Htake.
  { destruct (write_queue w); [contradiction | discriminate]. }
  rewrite (WriteBehindFacts.flush_batch w x ws Htake).
  set (w0 := set_write_queue (drop BATCH_SIZE (write_queue w)) w) in *.
  destruct (WriteBehindFacts.process_writes_all_ok (x :: ws) w0 pg Hall)
    as (Hdb & Hq & Herr).
  destruct (process_writes_stats (x :: ws) w0) as (_ & Hf & Hr & Hn & _).
  set (w1 := WriteBehindCache.process_writes (x :: ws) w0) in *.
  change (db (record_flush w1)) with (db w1).
  change (write_queue (record_flush w1)) with (write_queue w1).
  change (errors (record_flush w1)) with (errors w1).
  change (redis (record_flush w1)) with (redis w1).
  change (db_flushes (write_stats (record_flush w1))) with (db_flushes (write_stats w1)).
  change (pending_writes (write_stats (record_flush w1))) with (llen w1).
  change (last_flush (write_stats (record_flush w1))) with (Some (now w1)).
  unfold llen in *. rewrite Hq in *. rewrite Hdb, Herr, Hr, Hn.
  change (write_stats w0) with (write_stats w) in Hf.
  repeat split. lia.
Qed.

Lemma flush_applies_batch_in_order_witness :
  let w' := flush Scenarios.WB.backlog_of_eleven in
  length (write_queue w') = 1%nat /\
  length (Pg.users (db w')) = 12%nat /\
  db_flushes (write_stats w') = 10.
Proof.
  destruct (flush_applies_batch_in_order Scenarios.WB.backlog_of_eleven
              (WriteBehind.db (flush Scenarios.WB.backlog_of_eleven)))
    as (Hdb & Hq & _ & _ & Hf & _); [discriminate | vm_compute; reflexivity |].
  cbv zeta. rewrite Hq, Hf. repeat split.
Defined.

Lemma raised_is_raised {A} (o : outcome A) :
  is_raised o = true -> exists e, o = Raised e.
Proof. destruct o as [a|e]; [discriminate | eauto]. Qed.

(** X3: a queued write that the store refuses whatever its connection
    does is retried at every tick without end: after any number of
    ticks it is still the whole queue, every tick has logged one more
    error, no row has changed and nothing is counted as flushed. *)
Theorem poison_write_is_retried_forever (w : World) (m : Write) (n : nat) :
  write_queue w = [m] ->
  (forall pg : Pg.t,
     Pg.users pg = Pg.users (db w) -> is_raised (fst (apply_write m pg)) = true) ->
  let w' := flush_ticks n w in
  write_queue w' = [m] /\
  Pg.users (db w') = Pg.users (db w) /\
  length (errors w') = (length (errors w) + n)%nat /\
  db_flushes (write_stats w') = db_flushes (write_stats w).
Proof.
  revert w. induction n as [|n IH]; intros w Hq Hpoison; cbn [flush_ticks].
  - cbv zeta. rewrite Hq. repeat split. lia.
  - assert (Hstep : write_queue (flush w) = [m] /\
                    Pg.users (db (flush w)) = Pg.users (db w) /\
                    length (errors (flush w)) = S (length (errors w)) /\
                    db_flushes (write_stats (flush w)) = db_flushes (write_stats w)).
    { destruct (raised_is_raised _ (Hpoison (db w) eq_refl)) as [e He].
      destruct (WriteBehindCache.apply_write m (db w)) as [r pg'] eqn:Ha.
      cbn in He. subst r.
      rewrite (WriteBehindFacts.flush_batch w m []) by (rewrite Hq; reflexivity).
      rewrite Hq. cbn. rewrite Ha. cbn. rewrite length_app. cbn.
      rewrite (apply_write_raised_users _ _ _ _ Ha). repeat split. lia. }
    destruct Hstep as (Hq' & Hu' & He' & Hf').
    destruct (IH (flush w) Hq') as (Hq'' & Hu'' & He'' & Hf'').
    { intros pg Hpg. apply Hpoison. congruence. }
    cbv zeta. rewrite Hq'', Hu'', He'', Hf'', Hu', He', Hf'. repeat split. lia.
Qed.

Lemma poison_write_is_retried_forever_witness :
  let m := mkWrite Update (model_dump (mkUser (Some 7) "Alice" "bob@example.com" 30)) 0 in
  let w := mkWorld ∅ 0 [m] Scenarios.two_users (mkStats 1 0 1 None) 100 [] in
  write_queue (flush_ticks 5 w) = [m] /\
  errors (flush_ticks 5 w) = replicate 5 UniqueViolation.
Proof.
  intros m w.
  destruct (poison_write_is_retried_forever w m 5 eq_refl) as (Hq & _).
  - intros [us sq fs] Hu. cbn in Hu. subst us.
    destruct fs as [|[] fs]; reflexivity.
  - split; [exact Hq | vm_compute; reflexivity].
Defined.





End WriteBehindMore.

(** ** Write-through: the cache reflects the store *)

Module WriteThroughMore.
Import WriteThrough.

Lemma get_setex_same k s u (m : Redis.keyspace) :
  Redis.get k (Redis.setex k s u m) = Some u.
Proof. unfold Redis.get, Redis.setex. rewrite lookup_insert_eq. reflexivity. Qed.

Lemma get_setex_other k j s u (m : Redis.keyspace) :
  j <> k -> Redis.get j (Redis.setex k s u m) = Redis.get j m.
Proof.
  intros Hj. unfold Redis.get, Redis.setex.
  rewrite lookup_insert_ne by congruence. reflexivity.
Qed.

Lemma get_del_same k (m : Redis.keyspace) : Redis.get k (Redis.del k m) = None.
Proof. unfold Redis.get, Redis.del. rewrite lookup_delete_eq. reflexivity. Qed.

Lemma get_del_other k j (m : Redis.keyspace) :
  j <> k -> Redis.get j (Redis.del k m) = Redis.get j m.
Proof.
  intros Hj. unfold Redis.get, Redis.del.
  rewrite lookup_delete_ne by congruence. reflexivity.
Qed.

(** Time only takes entries away. *)
Lemma get_elapse k s u (m : Redis.keyspace) :
  Redis.get k (Redis.elapse s m) = Some u -> Redis.get k m = Some u.
Proof.
  unfold Redis.get, Redis.elapse. rewrite lookup_omap.
  destruct (m !! k) as [[u' t]|]; cbn; [|discriminate].
  destruct (0 <? t - s); cbn; [auto | discriminate].
Qed.

(** *** How coherence is kept, statement by statement *)

Lemma coherent_same_rows m pg pg' :
  Pg.users pg' = Pg.users pg -> coherent m pg -> coherent m pg'.
Proof. unfold coherent. intros ->. auto. Qed.

Lemma coherent_fill k s row m pg :
  find (Pg.has_id k) (Pg.users pg) = Some row ->
  coherent m pg -> coherent (Redis.setex k s (Pg.user_of_row row) m) pg.
Proof.
  intros Hrow Hc j u. destruct (decide (j = k)) as [->|Hj].
  - rewrite get_setex_same. intros [= <-]. eauto.
  - rewrite get_setex_other by exact Hj. apply Hc.
Qed.

Lemma coherent_del k m pg : coherent m pg -> coherent (Redis.del k m) pg.
Proof.
  intros Hc j u. destruct (decide (j = k)) as [->|Hj].
  - rewrite get_del_same. discriminate.
  - rewrite get_del_other by exact Hj. apply Hc.
Qed.

Lemma coherent_elapse s m pg : coherent m pg -> coherent (Redis.elapse s m) pg.
Proof. intros Hc j u Hj. apply Hc, (get_elapse _ _ _ _ Hj). Qed.

Lemma coherent_insert row s m pg pg' :
  existsb (Pg.has_id (Pg.row_id row)) (Pg.users pg) = false ->
  Pg.users pg' = Pg.users pg ++ [row] ->
  coherent m pg ->
  coherent (Redis.setex (Pg.row_id row) s (Pg.user_of_row row) m) pg'.
Proof.
  intros Hfresh Hu Hc j u. rewrite Hu. destruct (decide (j = Pg.row_id row)) as [->|Hj].
  - rewrite get_setex_same. intros [= <-]. exists row. split; [|reflexivity].
    apply StoreFacts.find_app_fresh; [exact Hfresh | apply Z.eqb_refl].
  - rewrite get_setex_other by exact Hj. intros Hget.
    destruct (Hc j u Hget) as (r & Hr & Hur). exists r. split; [|exact Hur].
    apply StoreFacts.find_app_old, Hr.
Qed.

Lemma coherent_update i row s m pg pg' :
  Pg.row_id row = i ->
  existsb (Pg.has_id i) (Pg.users pg) = true ->
  Pg.users pg' = map (fun r => if Pg.has_id i r then row else r) (Pg.users pg) ->
  coherent m pg ->
  coherent (Redis.setex i s (Pg.user_of_row row) m) pg'.
Proof.
  intros Hid Hex Hu Hc j u. rewrite Hu. destruct (decide (j = i)) as [->|Hj].
  - rewrite get_setex_same. intros [= <-]. exists row. split; [|reflexivity].
    apply StoreFacts.find_replace_same; assumption.
  - rewrite get_setex_other by exact Hj. intros Hget.
    rewrite StoreFacts.find_replace_other by assumption. apply Hc, Hget.
Qed.

Lemma coherent_delete i m pg pg' :
  Pg.users pg' = List.filter (fun r => negb (Pg.has_id i r)) (Pg.users pg) ->
  coherent m pg -> coherent (Redis.del i m) pg'.
Proof.
  intros Hu Hc j u. rewrite Hu. destruct (decide (j = i)) as [->|Hj].
  - rewrite get_del_same. discriminate.
  - rewrite get_del_other by exact Hj. intros Hget.
    rewrite StoreFacts.find_filter_other by exact Hj. apply Hc, Hget.
Qed.

(** A delete that reports no row cannot have met a cached identity. *)
Lemma coherent_delete_none i m pg pg' :
  length (List.filter (Pg.has_id i) (Pg.users pg)) = 0%nat ->
  Pg.users pg' = List.filter (fun r => negb (Pg.has_id i r)) (Pg.users pg) ->
  coherent m pg -> coherent m pg'.
Proof.
  intros Hnone Hu Hc. apply StoreFacts.filter_nil_existsb in Hnone.
  apply (coherent_same_rows m pg); [|exact Hc].
  rewrite Hu. apply PgFacts.existsb_false_filter_negb, Hnone.
Qed.

Lemma step_coherent w ev :
  coherent (redis w) (db w) -> coherent (redis (step w ev)) (db (step w ev)).
Proof.
  intros Hc. destruct ev as [i|u|i u|i| |s]; cbn [step].
  - unfold get_user, WriteThroughCache.get_user.
    destruct (Redis.get i (redis w)); [exact Hc|].
    pose proof (StoreFacts.select_cases i (db w)) as Hsel.
    destruct (Pg.select_by_id i (db w)) as [[[row|]|e] pg']; cbn.
    + destruct Hsel as [Hrow Hu]. apply coherent_fill.
      * rewrite Hu. symmetry. exact Hrow.
      * apply (coherent_same_rows _ (db w)); assumption.
    + destruct Hsel as [_ Hu]. apply (coherent_same_rows _ (db w)); assumption.
    + destruct Hsel as [Hu _]. apply (coherent_same_rows _ (db w)); assumption.
  - unfold create_user, WriteThroughCache.create_user. cbn [db count_total set_write_stats].
    pose proof (StoreFacts.insert_cases (user_name u) (user_email u) (user_age u) (db w))
      as Hins.
    destruct (Pg.insert_returning _ _ _ (db w)) as [[row|e] pg']; cbn.
    + destruct Hins as (Hrow & _ & Hfresh & Hu).
      apply (coherent_insert row _ _ (db w)); [|exact Hu|exact Hc].
      rewrite Hrow. exact Hfresh.
    + apply (coherent_same_rows _ (db w)); assumption.
  - unfold update_user, WriteThroughCache.update_user. cbn [db count_total set_write_stats].
    pose proof (StoreFacts.update_cases (user_name u) (user_email u) (user_age u) i (db w))
      as Hupd.
    destruct (Pg.update_by_id _ _ _ _ (db w)) as [[[row|]|e] pg']; cbn.
    + destruct Hupd as (Hrow & Hex & Hu).
      apply (coherent_update i row _ _ (db w)); [rewrite Hrow; reflexivity | | |]; assumption.
    + destruct Hupd as [_ Hu]. apply (coherent_same_rows _ (db w)); assumption.
    + apply coherent_del, (coherent_same_rows _ (db w)); assumption.
  - unfold delete_user, WriteThroughCache.delete_user. cbn [db count_total set_write_stats].
    pose proof (StoreFacts.delete_cases i (db w)) as Hdel.
    destruct (Pg.delete_by_id (Some i) (db w)) as [[[|n]|e] pg']; cbn.
    + destruct Hdel as [Hn Hu]. apply (coherent_delete_none i _ (db w)); auto.
    + destruct Hdel as [_ Hu]. apply (coherent_delete i _ (db w)); assumption.
    + apply (coherent_same_rows _ (db w)); assumption.
  - exact Hc.
  - apply coherent_elapse, Hc.
Qed.

(** X6: the write-through service keeps its cache coherent with the
    table: if every cached user is the row stored under that identity,
    this is still so after any sequence of reads, creates, updates,
    deletes and expirations, whether the store accepts, refuses or
    fails the statements. *)
Theorem write_through_keeps_cache_coherent (w : World) (evs : list event) :
  coherent (redis w) (db w) -> coherent (redis (run w evs)) (db (run w evs)).
Proof.
  revert w. induction evs as [|ev evs IH]; intros w H; [exact H|].
  apply (IH (step w ev)), step_coherent, H.
Qed.

Lemma write_through_keeps_cache_coherent_witness :
  let w := run Scenarios.WT.fresh
               [GetUser 7; UpdateUser 7 (Scenarios.alice_aged 26);
                CreateUser Scenarios.carol; DeleteUser 8;
                UpdateUser 9 (mkUser None "Carol" "alice@example.com" 33)] in
  coherent (redis w) (db w) /\
  Redis.get 7 (redis w) = Some (Scenarios.alice_aged 26) /\
  Redis.get 9 (redis w) = None.
Proof.
  split; [|vm_compute; split; reflexivity].
  apply (write_through_keeps_cache_coherent Scenarios.WT.fresh).
  intros k u. unfold Redis.get. cbn. rewrite lookup_empty. discriminate.
Defined.

Lemma step_writes_accounted w ev : writes_accounted w -> writes_accounted (step w ev).
Proof.
  unfold writes_accounted. intros H. destruct ev as [i|u|i u|i| |s]; cbn [step].
  - unfold get_user, WriteThroughCache.get_user.
    destruct (Redis.get i (redis w)); [exact H|].
    destruct (Pg.select_by_id i (db w)) as [[[row|]|e] pg']; exact H.
  - unfold create_user, WriteThroughCache.create_user. cbn [db count_total set_write_stats].
    destruct (Pg.insert_returning _ _ _ (db w)) as [[row|e] pg']; cbn; lia.
  - unfold update_user, WriteThroughCache.update_user. cbn [db count_total set_write_stats].
    destruct (Pg.update_by_id _ _ _ _ (db w)) as [[[row|]|e] pg']; cbn; lia.
  - unfold delete_user, WriteThroughCache.delete_user. cbn [db count_total set_write_stats].
    destruct (Pg.delete_by_id (Some i) (db w)) as [[[|n]|e] pg']; cbn; lia.
  - exact H.
  - exact H.
Qed.

(** X7: in the write-through service every write request is counted
    once in [total_writes] and once in exactly one of
    [successful_writes] (the handler replies: 201, 200 or 204) and
    [failed_writes] (the handler raises: a 404 and a 500 are both
    failures), and reads, stats requests and the passing of time
    change no counter: the relation
    [total_writes = successful_writes + failed_writes] survives every
    sequence of requests. *)
Theorem writes_are_successes_plus_failures (w : World) :
  (forall evs : list event, writes_accounted w -> writes_accounted (run w evs)) /\
  (forall u : User,
     counted_once (fst (create_user u w))
                  (write_stats w) (write_stats (snd (create_user u w))) /\
     (fst (create_user u w) = HTTPException 500 \/
      exists c, fst (create_user u w) = Reply 201 c)) /\
  (forall (k : Z) (u : User),
     counted_once (fst (update_user k u w))
                  (write_stats w) (write_stats (snd (update_user k u w))) /\
     (fst (update_user k u w) = HTTPException 404 \/
      fst (update_user k u w) = HTTPException 500 \/
      exists c, fst (update_user k u w) = Reply 200 c)) /\
  (forall k : Z,
     counted_once (fst (delete_user k w))
                  (write_stats w) (write_stats (snd (delete_user k w))) /\
     (fst (delete_user k w) = HTTPException 404 \/
      fst (delete_user k w) = HTTPException 500 \/
      fst (delete_user k w) = Reply 204 tt)) /\
  (forall k : Z, write_stats (snd (get_user k w)) = write_stats w) /\
  write_stats (snd (get_stats w)) = write_stats w /\
  (forall s : Z, write_stats (step w (Elapse s)) = write_stats w).
Proof.
  split; [|split; [|split; [|split; [|split; [|split]]]]].
  - intros evs. revert w. induction evs as [|ev evs IH]; intros w H; [exact H|].
    apply (IH (step w ev)), step_writes_accounted, H.
  - intros u. unfold counted_once, create_user, WriteThroughCache.create_user.
    destruct (Pg.insert_returning _ _ _ _) as [[row|e] pg']; cbn; eauto 6.
  - intros k u. unfold counted_once, update_user, WriteThroughCache.update_user.
    destruct (Pg.update_by_id _ _ _ _ _) as [[[row|]|e] pg']; cbn; eauto 7.
  - intros k. unfold counted_once, delete_user, WriteThroughCache.delete_user.
    destruct (Pg.delete_by_id _ _) as [[[|n]|e] pg']; cbn; eauto 7.
  - intros k. unfold get_user, WriteThroughCache.get_user.
    destruct (Redis.get k (redis w)); [reflexivity|].
    destruct (Pg.select_by_id k (db w)) as [[[row|]|e] pg']; reflexivity.
  - reflexivity.
  - reflexivity.
Qed.

Lemma writes_are_successes_plus_failures_witness :
  let w := run Scenarios.WT.fresh
               [GetUser 7; UpdateUser 7 (Scenarios.alice_aged 26);
                CreateUser Scenarios.carol; DeleteUser 99;
                UpdateUser 9 (mkUser None "Carol" "alice@example.com" 33)] in
  writes_accounted w /\ write_stats w = mkStats 4 2 2.
Proof.
  split; [|vm_compute; reflexivity].
  destruct (writes_are_successes_plus_failures Scenarios.WT.fresh) as [Hrun _].
  apply Hrun. reflexivity.
Defined.

(** X8: a write-through read that finds the user leaves it in the
    cache, so that the same read again gives the same answer without a
    statement to the store (the world is not touched, pending faults
    included); a read that finds nothing or fails caches nothing; and
    no read changes a row. *)
Theorem read_fills_cache_once (w : World) (k : Z) :
  let r := WriteThroughCache.get_user k w in
  Pg.users (db (snd r)) = Pg.users (db w) /\
  (forall u, fst r = Ok (Some u) ->
             WriteThroughCache.get_user k (snd r) = (Ok (Some u), snd r)) /\
  (fst r = Ok None -> redis (snd r) = redis w) /\
  (forall e, fst r = Raised e -> redis (snd r) = redis w).
Proof.
  unfold WriteThroughCache.get_user.
  destruct (Redis.get k (redis w)) as [c|] eqn:Hget; cbn.
  - repeat split; try discriminate. intros u [= <-]. rewrite Hget. reflexivity.
  - pose proof (StoreFacts.select_cases k (db w)) as Hsel.
    destruct (Pg.select_by_id k (db w)) as [[[row|]|e] pg']; cbn.
    + destruct Hsel as [_ Hu]. repeat split; try discriminate; [exact Hu|].
      intros u [= <-]. rewrite get_setex_same. reflexivity.
    + destruct Hsel as [_ Hu]. repeat split; try discriminate. exact Hu.
    + destruct Hsel as [Hu _]. repeat split; try discriminate. exact Hu.
Qed.

Lemma read_fills_cache_once_witness :
  let w1 := snd (WriteThroughCache.get_user 7 Scenarios.WT.fresh) in
  WriteThroughCache.get_user 7 w1 = (Ok (Some (Pg.user_of_row Scenarios.alice)), w1).
Proof.
  destruct (read_fills_cache_once Scenarios.WT.fresh 7) as (_ & Hhit & _).
  exact (Hhit _ eq_refl).
Defined.

(** X9: the write-through delete, by its three outcomes.  When the
    store deletes a row the cache key goes too, and the next read
    answers 404 from the store.  When the store has no such row the
    answer is 404 and neither the cache nor the table is touched.  When
    the store fails, the error is logged and raised, and the cache entry
    stays (unlike the update, which drops it). *)
Theorem write_through_delete_outcomes (w : World) (k : Z) :
  let r := WriteThroughCache.delete_user k w in
  (fst r = Ok true ->
   existsb (Pg.has_id k) (Pg.users (db w)) = true /\
   Redis.get k (redis (snd r)) = None /\
   find (Pg.has_id k) (Pg.users (db (snd r))) = None /\
   fst (WriteThrough.delete_user k w) = Reply 204 tt /\
   (Pg.faults (db (snd r)) = [] -> fst (WriteThrough.get_user k (snd r)) = HTTPException 404)) /\
  (fst r = Ok false ->
   existsb (Pg.has_id k) (Pg.users (db w)) = false /\
   redis (snd r) = redis w /\
   Pg.users (db (snd r)) = Pg.users (db w) /\
   fst (WriteThrough.delete_user k w) = HTTPException 404) /\
  (forall e, fst r = Raised e ->
   redis (snd r) = redis w /\
   Pg.users (db (snd r)) = Pg.users (db w) /\
   errors (snd r) = errors w ++ [e] /\
   fst (WriteThrough.delete_user k w) = HTTPException 500).
Proof.
  unfold WriteThrough.delete_user, WriteThrough.get_user, WriteThroughCache.get_user,
    WriteThroughCache.delete_user.
  cbn [db count_total set_write_stats].
  pose proof (StoreFacts.delete_cases k (db w)) as Hdel.
  destruct (Pg.delete_by_id (Some k) (db w)) as [[[|n]|e] pg'] eqn:Hd; cbn;
    (split; [|split]); try discriminate; try (intros ? [=]).
  - intros _. destruct Hdel as [Hn Hu]. symmetry in Hn.
    apply StoreFacts.filter_nil_existsb in Hn.
    repeat split; [exact Hn|]. rewrite Hu.
    apply PgFacts.existsb_false_filter_negb, Hn.
  - intros _. destruct Hdel as [Hn Hu].
    assert (Hex : existsb (Pg.has_id k) (Pg.users (db w)) = true).
    { destruct (existsb (Pg.has_id k) (Pg.users (db w))) eqn:Hex; [reflexivity|].
      rewrite (PgFacts.existsb_false_filter _ _ Hex) in Hn. discriminate. }
    assert (Hnone : find (Pg.has_id k) (Pg.users pg') = None)
      by (rewrite Hu; apply StoreFacts.find_filter_same).
    split; [exact Hex|]. split; [apply get_del_same|]. split; [exact Hnone|].
    split; [reflexivity|]. intros Hf. rewrite get_del_same.
    rewrite (PgFacts.select_no_faults k pg' Hf), (StoreFacts.delete_ok_in_range _ _ _ _ Hd).
    rewrite Hnone. reflexivity.
  - subst. repeat split. exact Hdel.
Qed.

Lemma write_through_delete_outcomes_witness :
  let w1 := snd (WriteThroughCache.get_user 7 Scenarios.WT.fresh) in
  fst (WriteThrough.delete_user 7 w1) = Reply 204 tt /\
  fst (WriteThrough.delete_user 99 w1) = HTTPException 404 /\
  redis (snd (WriteThroughCache.delete_user 99 w1)) = redis w1 /\
  fst (WriteThrough.delete_user 7 Scenarios.WT.alice_cached_store_down) = HTTPException 500 /\
  redis (snd (WriteThroughCache.delete_user 7 Scenarios.WT.alice_cached_store_down))
  = redis Scenarios.WT.alice_cached_store_down.
Proof.
  intros w1.
  destruct (write_through_delete_outcomes w1 7) as (Hok & _ & _).
  destruct (write_through_delete_outcomes w1 99) as (_ & Hnone & _).
  destruct (write_through_delete_outcomes Scenarios.WT.alice_cached_store_down 7)
    as (_ & _ & Hraised).
  destruct (Hok eq_refl) as (_ & _ & _ & H204 & _).
  destruct (Hnone eq_refl) as (_ & Hredis & _ & H404).
  destruct (Hraised PostgresError eq_refl) as (Hredis' & _ & _ & H500).
  auto.
Defined.





End WriteThroughMore.

(** ** Refresh-ahead: tracking, the tick and the store *)

Module RefreshAheadMore.
Import RefreshAhead.

Abbreviation tick := RefreshAheadCache._refresh_hot_items.
Abbreviation scan := (fold_left RefreshAheadCache.refresh_item).

(** What a read does to the tracking data, whatever it finds. *)
Lemma get_user_tracking i w :
  let c := default 0 (access_counts w !! i) + 1 in
  access_counts (snd (get_user i w)) = <[i := c]> (access_counts w) /\
  hot_items (snd (get_user i w))
  = if ACCESS_THRESHOLD <=? c then {[i]} ∪ hot_items w else hot_items w.
Proof.
  unfold get_user, RefreshAheadCache.get_user.
  set (w1 := RefreshAheadCache._track_access i (count_read w)).
  assert (H1 : access_counts w1
               = <[i := default 0 (access_counts w !! i) + 1]> (access_counts w) /\
               hot_items w1
               = if ACCESS_THRESHOLD <=? default 0 (access_counts w !! i) + 1
                 then {[i]} ∪ hot_items w else hot_items w).
  { subst w1. unfold RefreshAheadCache._track_access. cbn.
    destruct (ACCESS_THRESHOLD <=? _); auto. }
  destruct (Redis.get i (redis w1)); [exact H1|].
  cbn [db count_miss set_refresh_stats].
  destruct (Pg.select_by_id i _) as [[[row|]|e] pg']; exact H1.
Qed.

Lemma reads_track w k ids c :
  default 0 (access_counts w !! k) = c ->
  (k ∈ hot_items w <-> ACCESS_THRESHOLD <= c) ->
  let w' := run w (GetUser <$> ids) in
  default 0 (access_counts w' !! k) = c + reads_of k ids /\
  (k ∈ hot_items w' <-> ACCESS_THRESHOLD <= c + reads_of k ids).
Proof.
  revert w c. induction ids as [|j ids IH]; intros w c Hc Hh.
  - unfold reads_of. cbn. rewrite Z.add_0_r. auto.
  - cbn [fmap list_fmap run fold_left step].
    change (fold_left step (GetUser <$> ids) ?x) with (run x (GetUser <$> ids)).
    destruct (get_user_tracking j w) as [Hac Hhot].
    unfold reads_of. cbn [List.filter].
    destruct (Z.eqb_spec k j) as [<-|Hkj].
    + cbn [length]. rewrite Nat2Z.inj_succ.
      destruct (IH (snd (get_user k w)) (c + 1)) as [Hc' Hh'].
      * rewrite Hac, lookup_insert_eq. cbn. lia.
      * rewrite Hhot, Hc. destruct (Z.leb_spec ACCESS_THRESHOLD (c + 1)) as [Hle|Hlt].
        -- rewrite elem_of_union, elem_of_singleton. tauto.
        -- rewrite Hh. unfold ACCESS_THRESHOLD in *. lia.
      * unfold reads_of in *. split; [rewrite Hc'; lia | rewrite Hh'; lia].
    + destruct (IH (snd (get_user j w)) c) as [Hc' Hh'].
      * rewrite Hac, lookup_insert_ne by congruence. exact Hc.
      * rewrite Hhot. destruct (ACCESS_THRESHOLD <=? _); [|exact Hh].
        rewrite elem_of_union, elem_of_singleton. rewrite <- Hh. intuition congruence.
      * unfold reads_of in *. auto.
Qed.

(** X12: a key that has never been read and is not hot becomes hot
    exactly with its third read ([ACCESS_THRESHOLD]), whatever other
    keys are read in between and whether or not the reads find the
    user: after any sequence of reads, its access count is the number
    of reads of that key, and it is hot iff that number is at least 3. *)
Theorem key_is_hot_from_third_read (w : World) (k : Z) (ids : list Z) :
  access_counts w !! k = None ->
  k ∉ hot_items w ->
  let w' := run w (GetUser <$> ids) in
  default 0 (access_counts w' !! k) = reads_of k ids /\
  (k ∈ hot_items w' <-> 3 <= reads_of k ids).
Proof.
  intros Hnone Hcold.
  apply (reads_track w k ids 0).
  - rewrite Hnone. reflexivity.
  - unfold ACCESS_THRESHOLD. split; [contradiction | lia].
Qed.

Lemma key_is_hot_from_third_read_witness :
  elements (hot_items (run Scenarios.RA.fresh (GetUser <$> [99; 7; 99]))) = [] /\
  99 ∈ hot_items (run Scenarios.RA.fresh (GetUser <$> [99; 7; 99; 8; 99])).
Proof.
  split; [vm_compute; reflexivity|].
  destruct (key_is_hot_from_third_read Scenarios.RA.fresh 99 [99; 7; 99; 8; 99]) as [_ Hhot].
  - reflexivity.
  - vm_compute. discriminate.
  - apply Hhot. vm_compute. discriminate.
Defined.

(** X13: the refresh-ahead delete, by its three outcomes.  When the
    store deletes a row, the cache entry, the hot-set membership and
    the access count of the key all go.  When the store reports no
    such row (404) or raises (500), nothing of the cache, the hot set,
    the access counts and the rows changes: a key that is hot for an
    identity that does not exist stays hot.  Over a connection with no
    pending fault, the delete of an absent identity reports no row if
    the identity fits the 32-bit column, and raises [DataError] if it
    does not. *)
Theorem refresh_ahead_delete_outcomes (w : World) (k : Z) :
  let r := RefreshAheadCache.delete_user k w in
  (fst r = Ok true ->
   Redis.get k (redis (snd r)) = None /\
   (k ∉ hot_items (snd r)) /\
   access_counts (snd r) !! k = None /\
   find (Pg.has_id k) (Pg.users (db (snd r))) = None /\
   fst (RefreshAhead.delete_user k w) = Reply 204 tt) /\
  (fst r = Ok false ->
   existsb (Pg.has_id k) (Pg.users (db w)) = false /\
   redis (snd r) = redis w /\
   hot_items (snd r) = hot_items w /\
   access_counts (snd r) = access_counts w /\
   Pg.users (db (snd r)) = Pg.users (db w) /\
   fst (RefreshAhead.delete_user k w) = HTTPException 404) /\
  (forall e, fst r = Raised e ->
   redis (snd r) = redis w /\
   hot_items (snd r) = hot_items w /\
   access_counts (snd r) = access_counts w /\
   Pg.users (db (snd r)) = Pg.users (db w) /\
   fst (RefreshAhead.delete_user k w) = HTTPException 500) /\
  (Pg.faults (db w) = [] ->
   existsb (Pg.has_id k) (Pg.users (db w)) = false ->
   fst r = if Pg.int4 k then Ok false else Raised DataError).
Proof.
  unfold RefreshAhead.delete_user, RefreshAheadCache.delete_user.
  pose proof (StoreFacts.delete_cases k (db w)) as Hdel.
  assert (Habsent : Pg.faults (db w) = [] ->
                    existsb (Pg.has_id k) (Pg.users (db w)) = false ->
                    fst (Pg.delete_by_id (Some k) (db w))
                    = if Pg.int4 k then Ok 0%nat else Raised DataError).
  { intros Hf Hex. rewrite (PgFacts.delete_no_faults k (db w) Hf).
    rewrite (PgFacts.existsb_false_filter _ _ Hex). reflexivity. }
  destruct (Pg.delete_by_id (Some k) (db w)) as [[[|n]|e] pg'] eqn:Hd; cbn.
  - destruct Hdel as [Hn Hu]. symmetry in Hn.
    apply StoreFacts.filter_nil_existsb in Hn.
    split; [discriminate|]. split; [|split; [discriminate|]].
    + intros _. repeat split; [exact Hn|].
      rewrite Hu. apply PgFacts.existsb_false_filter_negb, Hn.
    + intros _ _. rewrite (StoreFacts.delete_ok_in_range _ _ _ _ Hd). reflexivity.
  - destruct Hdel as [_ Hu].
    split; [|split; [discriminate | split; [discriminate|]]].
    + intros _. split; [apply WriteThroughMore.get_del_same|].
      split; [rewrite elem_of_difference, elem_of_singleton; tauto|].
      split; [apply lookup_delete_eq|].
      split; [rewrite Hu; apply StoreFacts.find_filter_same | reflexivity].
    + intros Hf Hex. specialize (Habsent Hf Hex). cbn in Habsent.
      destruct (Pg.int4 k); discriminate.
  - split; [discriminate|]. split; [discriminate|]. split.
    + intros e' _. repeat split. exact Hdel.
    + intros Hf Hex. specialize (Habsent Hf Hex). cbn in Habsent.
      destruct (Pg.int4 k); [discriminate | congruence].
Qed.

Lemma refresh_ahead_delete_outcomes_witness :
  fst (RefreshAhead.delete_user 7 Scenarios.RA.alice_hot) = Reply 204 tt /\
  fst (RefreshAheadCache.delete_user 7 Scenarios.RA.alice_hot_not_durable) = Ok false /\
  hot_items (snd (RefreshAheadCache.delete_user 7 Scenarios.RA.alice_hot_not_durable))
  = hot_items Scenarios.RA.alice_hot_not_durable /\
  fst (RefreshAhead.delete_user 7 Scenarios.RA.alice_hot_store_down) = HTTPException 500 /\
  fst (RefreshAheadCache.delete_user 2147483648 Scenarios.RA.alice_hot) = Raised DataError.
Proof.
  destruct (refresh_ahead_delete_outcomes Scenarios.RA.alice_hot 2147483648)
    as (_ & _ & _ & Hrange).
  pose proof (Hrange eq_refl eq_refl) as Hdata.
  destruct (refresh_ahead_delete_outcomes Scenarios.RA.alice_hot 7) as (Hok & _).
  destruct (refresh_ahead_delete_outcomes Scenarios.RA.alice_hot_not_durable 7)
    as (_ & Hnone & _ & Habsent).
  destruct (refresh_ahead_delete_outcomes Scenarios.RA.alice_hot_store_down 7)
    as (_ & _ & Hraised & _).
  destruct (Hok eq_refl) as (_ & _ & _ & _ & H204).
  pose proof (Habsent eq_refl eq_refl) as Hfalse.
  destruct (Hnone Hfalse) as (_ & _ & Hhot & _).
  destruct (Hraised PostgresError eq_refl) as (_ & _ & _ & _ & H500).
  auto.
Defined.

(** *** The tick as a whole *)

Lemma refresh_user_fields i w :
  let w' := snd (RefreshAheadCache._refresh_user i w) in
  access_counts w' = access_counts w /\
  refresh_stats w' = refresh_stats w /\
  errors w' = errors w /\
  (coherent (redis w) (db w) -> coherent (redis w') (db w')).
Proof.
  unfold RefreshAheadCache._refresh_user.
  pose proof (StoreFacts.select_cases i (db w)) as Hsel.
  destruct (Pg.select_by_id i (db w)) as [[[row|]|e] pg']; cbn; repeat split; intros Hc.
  - destruct Hsel as [Hrow Hu]. apply WriteThroughMore.coherent_fill.
    + rewrite Hu. symmetry. exact Hrow.
    + apply (WriteThroughMore.coherent_same_rows _ (db w)); assumption.
  - destruct Hsel as [_ Hu]. apply (WriteThroughMore.coherent_same_rows _ (db w)); assumption.
  - destruct Hsel as [Hu _].
    apply (WriteThroughMore.coherent_same_rows _ (db w)); assumption.
Qed.

(** One item of the scan: the access counts stay, the hot set can
    only lose the item, coherence is kept, and the item is counted as
    a refresh or logged as an error exactly when it is due. *)
Lemma refresh_item_fields w j :
  let w' := RefreshAheadCache.refresh_item w j in
  access_counts w' = access_counts w /\
  (hot_items w' ⊆ hot_items w) /\
  (coherent (redis w) (db w) -> coherent (redis w') (db w')) /\
  proactive_refreshes (refresh_stats w') + Z.of_nat (length (errors w'))
  = proactive_refreshes (refresh_stats w) + Z.of_nat (length (errors w))
    + (if due w j then 1 else 0).
Proof.
  unfold RefreshAheadCache.refresh_item, due.
  destruct (Z.leb_spec (Redis.ttl j (redis w)) 0) as [Hle|Hgt].
  - assert ((0 <? Redis.ttl j (redis w)) = false) as -> by (apply Z.ltb_ge; lia).
    cbn. repeat split; [|auto|lia].
    intros x. rewrite elem_of_difference. tauto.
  - assert ((0 <? Redis.ttl j (redis w)) = true) as -> by (apply Z.ltb_lt; lia).
    cbn [andb].
    destruct (below_refresh_threshold _); [|repeat split; [reflexivity|auto|lia]].
    destruct (refresh_user_fields j w) as (Hac & Hst & Her & Hco).
    destruct (RefreshAheadFacts.refresh_user_frame j w) as (Hhot & _).
    destruct (RefreshAheadCache._refresh_user j w) as [[[]|e] w1]; cbn in *.
    + rewrite Hac, Hhot, Hst, Her. repeat split; auto; lia.
    + rewrite Hac, Hhot, Hst, Her, length_app. cbn. repeat split; auto; lia.
Qed.

Lemma due_other w j k :
  k <> j -> due (RefreshAheadCache.refresh_item w j) k = due w k.
Proof.
  intros Hk. unfold due.
  destruct (RefreshAheadFacts.refresh_item_other w j k Hk) as [Hr _].
  rewrite (RefreshAheadFacts.ttl_lookup k _ _ Hr). reflexivity.
Qed.

Lemma filter_due_other w j l :
  j ∉ l ->
  List.filter (due (RefreshAheadCache.refresh_item w j)) l = List.filter (due w) l.
Proof.
  induction l as [|k l IH]; intros Hj; [reflexivity|].
  apply not_elem_of_cons in Hj as [Hjk Hjl]. cbn.
  rewrite due_other by congruence. rewrite IH by exact Hjl. reflexivity.
Qed.

Lemma scan_fields l w :
  NoDup l ->
  access_counts (scan l w) = access_counts w /\
  (hot_items (scan l w) ⊆ hot_items w) /\
  (coherent (redis w) (db w) -> coherent (redis (scan l w)) (db (scan l w))) /\
  proactive_refreshes (refresh_stats (scan l w)) + Z.of_nat (length (errors (scan l w)))
  = proactive_refreshes (refresh_stats w) + Z.of_nat (length (errors w))
    + Z.of_nat (length (List.filter (due w) l)).
Proof.
  revert w. induction l as [|j l IH]; intros w Hnd; cbn [fold_left].
  - cbn. repeat split; [reflexivity | auto | lia].
  - apply NoDup_cons in Hnd as [Hj Hnd].
    destruct (IH (RefreshAheadCache.refresh_item w j) Hnd) as (Hac & Hhot & Hco & Hsum).
    destruct (refresh_item_fields w j) as (Hac' & Hhot' & Hco' & Hsum').
    rewrite Hac, Hac', Hsum, Hsum', filter_due_other by exact Hj.
    split; [reflexivity|]. split; [etrans; eassumption|]. split; [auto|].
    cbn [List.filter]. destruct (due w j); cbn [length]; lia.
Qed.

Lemma tick_fields w :
  access_counts (tick w) = access_counts (scan (elements (hot_items w)) w) /\
  errors (tick w) = errors (scan (elements (hot_items w)) w) /\
  db (tick w) = db (scan (elements (hot_items w)) w) /\
  proactive_refreshes (refresh_stats (tick w))
  = proactive_refreshes (refresh_stats (scan (elements (hot_items w)) w)).
Proof.
  unfold RefreshAheadCache._refresh_hot_items.
  destruct (elements (hot_items w)); auto.
Qed.

(** X14: what a refresh tick does to the hot set and around it: a key
    is hot after the tick iff it was hot before and its lifetime query
    was positive (nothing is added, and exactly the keys without a
    live cache entry are dropped); no row of the table and no access
    count changes; and when there was a hot key at all, the
    [hot_items] stat is the size of the hot set after the tick. *)
Theorem tick_drops_exactly_the_expired (w : World) :
  (forall k : Z,
     k ∈ hot_items (tick w) <-> k ∈ hot_items w /\ 0 < Redis.ttl k (redis w)) /\
  Pg.users (db (tick w)) = Pg.users (db w) /\
  access_counts (tick w) = access_counts w /\
  (hot_items w <> ∅ -> hot_items_count (refresh_stats (tick w)) = scard (tick w)).
Proof.
  destruct (tick_fields w) as (Hac & _ & Hdb & _).
  destruct (scan_fields (elements (hot_items w)) w (NoDup_elements _)) as (Hac' & Hsub & _).
  destruct (RefreshAheadFacts.refresh_hot_items_scan w) as [_ Hhot].
  split; [|split; [|split]].
  - intros k. split.
    + intros Hk. assert (Hk0 : k ∈ hot_items w) by (rewrite Hhot in Hk; auto).
      split; [exact Hk0|].
      destruct (Z.lt_ge_cases 0 (Redis.ttl k (redis w))) as [Hlt|Hge]; [exact Hlt|].
      exfalso. destruct (RefreshAheadFacts.tick_at w k Hk0) as (wa & Hr & _ & _ & _ & _ & Hh').
      apply Hh' in Hk. revert Hk. apply RefreshAheadFacts.refresh_item_demotes.
      rewrite (RefreshAheadFacts.ttl_lookup k _ _ Hr). lia.
    + intros [Hk0 Hlt].
      destruct (RefreshAheadFacts.tick_at w k Hk0) as (wa & Hr & Hh & _ & _ & _ & Hh').
      apply Hh'. destruct (RefreshAheadFacts.refresh_item_keeps wa k) as [-> _]; [|exact Hh].
      rewrite (RefreshAheadFacts.ttl_lookup k _ _ Hr). exact Hlt.
  - rewrite Hdb. apply RefreshAheadFacts.scan_db.
  - rewrite Hac. exact Hac'.
  - intros Hne. unfold RefreshAheadCache._refresh_hot_items.
    destruct (elements (hot_items w)) as [|x l] eqn:Hel; [|reflexivity].
    apply elements_empty_inv in Hel. apply leibniz_equiv in Hel. contradiction.
Qed.

Lemma tick_drops_exactly_the_expired_witness :
  7 ∈ hot_items (tick Scenarios.RA.alice_hot) /\
  (99 ∉ hot_items (tick (run Scenarios.RA.fresh (GetUser <$> [99; 99; 99])))) /\
  hot_items_count (refresh_stats (tick Scenarios.RA.alice_hot)) = 1.
Proof.
  destruct (tick_drops_exactly_the_expired Scenarios.RA.alice_hot) as (Hhot & _ & _ & Hstat).
  destruct (tick_drops_exactly_the_expired
              (run Scenarios.RA.fresh (GetUser <$> [99; 99; 99]))) as (Hcold & _).
  split; [|split].
  - apply Hhot. split; vm_compute; reflexivity.
  - rewrite Hcold. intros [_ Hlt]. vm_compute in Hlt. discriminate.
  - rewrite Hstat; [vm_compute; reflexivity|].
    intros H. apply (f_equal elements) in H. vm_compute in H. discriminate.
Defined.

(** A key is due when its lifetime query is positive and below
    fifteen seconds. *)
Lemma due_iff w k :
  due w k = true <-> 0 < Redis.ttl k (redis w) /\ Redis.ttl k (redis w) < 15.
Proof.
  unfold due, below_refresh_threshold, CACHE_TTL, REFRESH_THRESHOLD_DEN,
    REFRESH_THRESHOLD_NUM.
  rewrite andb_true_iff, !Z.ltb_lt. lia.
Qed.

(** Over a connection with no pending fault, the item of a key that
    fits the column whenever it is due logs nothing and leaves no
    fault pending. *)
Lemma refresh_item_quiet w j :
  Pg.faults (db w) = [] ->
  (due w j = true -> Pg.int4 j = true) ->
  errors (RefreshAheadCache.refresh_item w j) = errors w /\
  Pg.faults (db (RefreshAheadCache.refresh_item w j)) = [].
Proof.
  intros Hf Hj. unfold due in Hj. unfold RefreshAheadCache.refresh_item.
  destruct (Z.leb_spec (Redis.ttl j (redis w)) 0) as [Hle|Hgt]; [auto|].
  assert ((0 <? Redis.ttl j (redis w)) = true) as Hpos by (apply Z.ltb_lt; lia).
  rewrite Hpos in Hj. cbn [andb] in Hj.
  destruct (below_refresh_threshold _); [|auto].
  unfold RefreshAheadCache._refresh_user.
  rewrite (PgFacts.select_no_faults j (db w) Hf), (Hj eq_refl).
  destruct (find (Pg.has_id j) (Pg.users (db w))); cbn; auto.
Qed.

Lemma scan_quiet l w :
  NoDup l ->
  Pg.faults (db w) = [] ->
  (forall k, k ∈ l -> due w k = true -> Pg.int4 k = true) ->
  errors (scan l w) = errors w.
Proof.
  revert w. induction l as [|j l IH]; intros w Hnd Hf Hfit; cbn [fold_left];
    [reflexivity|].
  apply NoDup_cons in Hnd as [Hj Hnd].
  destruct (refresh_item_quiet w j Hf) as [He Hf'].
  { apply Hfit. apply elem_of_cons. left. reflexivity. }
  rewrite (IH (RefreshAheadCache.refresh_item w j) Hnd Hf'); [exact He|].
  intros k Hk. rewrite due_other by (intros ->; contradiction).
  apply Hfit. apply elem_of_cons. right. exact Hk.
Qed.

(** A hot key whose row is missing keeps the entry it had. *)
Lemma tick_leaves_missing w k :
  k ∈ hot_items w ->
  find (Pg.has_id k) (Pg.users (db w)) = None ->
  redis (tick w) !! k = redis w !! k.
Proof.
  intros Hk Hfind.
  destruct (RefreshAheadFacts.tick_at w k Hk) as (wa & Hr & _ & Hu & _ & Hr' & _).
  rewrite Hr', <- Hr.
  destruct (Z.le_gt_cases (Redis.ttl k (redis wa)) 0) as [Hle|Hgt].
  - destruct (RefreshAheadFacts.refresh_item_demotes wa k Hle) as [_ ->]. reflexivity.
  - apply RefreshAheadFacts.refresh_item_not_durable; [lia | rewrite Hu; exact Hfind].
Qed.

(** X15: the tick accounts for every hot key that is due, that is,
    whose lifetime query is positive and below fifteen seconds: each
    one adds one to [proactive_refreshes] or one line to the error log,
    and nothing else adds to either.  Over a connection with no pending
    fault, when the due keys fit the 32-bit column, nothing is logged
    and [proactive_refreshes] grows by the number of due keys, those
    whose row is missing included, although the entry of such a key is
    left as it was. *)
Theorem tick_counts_every_due_key (w : World) :
  let due_keys := List.filter (due w) (elements (hot_items w)) in
  (forall k : Z,
     k ∈ due_keys
     <-> k ∈ hot_items w /\ 0 < Redis.ttl k (redis w) /\ Redis.ttl k (redis w) < 15) /\
  proactive_refreshes (refresh_stats (tick w)) + Z.of_nat (length (errors (tick w)))
  = proactive_refreshes (refresh_stats w) + Z.of_nat (length (errors w))
    + Z.of_nat (length due_keys) /\
  (Pg.faults (db w) = [] ->
   (forall k : Z, k ∈ due_keys -> Pg.int4 k = true) ->
   errors (tick w) = errors w /\
   proactive_refreshes (refresh_stats (tick w))
   = proactive_refreshes (refresh_stats w) + Z.of_nat (length due_keys)) /\
  (forall k : Z,
     k ∈ hot_items w ->
     find (Pg.has_id k) (Pg.users (db w)) = None ->
     redis (tick w) !! k = redis w !! k).
Proof.
  intros due_keys.
  assert (Hdue : forall k, k ∈ due_keys <-> k ∈ hot_items w /\ due w k = true).
  { intros k. subst due_keys. rewrite list_elem_of_In, filter_In, <- list_elem_of_In.
    rewrite elem_of_elements. reflexivity. }
  assert (Hsum : proactive_refreshes (refresh_stats (tick w))
                 + Z.of_nat (length (errors (tick w)))
                 = proactive_refreshes (refresh_stats w) + Z.of_nat (length (errors w))
                   + Z.of_nat (length due_keys)).
  { destruct (tick_fields w) as (_ & -> & _ & ->).
    apply (scan_fields (elements (hot_items w)) w (NoDup_elements _)). }
  split; [|split; [exact Hsum|split]].
  - intros k. rewrite Hdue, due_iff. reflexivity.
  - intros Hf Hfit.
    assert (Herr : errors (tick w) = errors w).
    { destruct (tick_fields w) as (_ & -> & _).
      apply scan_quiet; [apply NoDup_elements | exact Hf |].
      intros k Hk Hd. apply Hfit, Hdue. split; [apply elem_of_elements, Hk | exact Hd]. }
    split; [exact Herr|]. rewrite Herr in Hsum. lia.
  - intros k. apply tick_leaves_missing.
Qed.

Lemma tick_counts_every_due_key_witness :
  let w := Scenarios.RA.alice_hot_not_durable in
  List.filter (due w) (elements (hot_items w)) = [7] /\
  find (Pg.has_id 7) (Pg.users (db w)) = None /\
  errors (tick w) = [] /\
  proactive_refreshes (refresh_stats (tick w)) = 1 /\
  redis (tick w) !! 7 = redis w !! 7.
Proof.
  intros w.
  destruct (tick_counts_every_due_key w) as (_ & _ & Hquiet & Hmissing).
  assert (Hkeys : List.filter (due w) (elements (hot_items w)) = [7])
    by (vm_compute; reflexivity).
  destruct Hquiet as [Herr Hcount]; [reflexivity | |].
  { intros k. rewrite Hkeys. intros Hk. apply list_elem_of_singleton in Hk. subst k.
    reflexivity. }
  split; [exact Hkeys|]. split; [reflexivity|]. split; [exact Herr|].
  split; [rewrite Hcount, Hkeys; reflexivity|].
  apply Hmissing; [vm_compute; reflexivity | reflexivity].
Defined.

Lemma tick_redis w : redis (tick w) = redis (scan (elements (hot_items w)) w).
Proof. apply RefreshAheadFacts.refresh_hot_items_scan. Qed.

Lemma refresh_ahead_step_coherent w ev :
  coherent (redis w) (db w) -> coherent (redis (step w ev)) (db (step w ev)).
Proof.
  intros Hc. destruct ev as [i|u|i u|i| | | |s]; cbn [step].
  - unfold get_user, RefreshAheadCache.get_user.
    set (w1 := RefreshAheadCache._track_access i (count_read w)).
    assert (H1 : redis w1 = redis w /\ db w1 = db w).
    { subst w1. unfold RefreshAheadCache._track_access.
      destruct (ACCESS_THRESHOLD <=? _); auto. }
    destruct H1 as [Hr Hd].
    assert (Hc1 : coherent (redis w1) (db w1)) by (rewrite Hr, Hd; exact Hc).
    destruct (Redis.get i (redis w1)); [exact Hc1|].
    cbn [db count_miss set_refresh_stats].
    pose proof (StoreFacts.select_cases i (db w1)) as Hsel.
    destruct (Pg.select_by_id i (db w1)) as [[[row|]|e] pg']; cbn.
    + destruct Hsel as [Hrow Hu]. apply WriteThroughMore.coherent_fill.
      * rewrite Hu. symmetry. exact Hrow.
      * apply (WriteThroughMore.coherent_same_rows _ (db w1)); assumption.
    + destruct Hsel as [_ Hu].
      apply (WriteThroughMore.coherent_same_rows _ (db w1)); assumption.
    + destruct Hsel as [Hu _].
      apply (WriteThroughMore.coherent_same_rows _ (db w1)); assumption.
  - unfold create_user, RefreshAheadCache.create_user.
    pose proof (StoreFacts.insert_cases (user_name u) (user_email u) (user_age u) (db w))
      as Hins.
    destruct (Pg.insert_returning _ _ _ (db w)) as [[row|e] pg']; cbn.
    + destruct Hins as (Hrow & _ & Hfresh & Hu).
      apply (WriteThroughMore.coherent_insert row _ _ (db w)); [|exact Hu|exact Hc].
      rewrite Hrow. exact Hfresh.
    + apply (WriteThroughMore.coherent_same_rows _ (db w)); assumption.
  - unfold update_user, RefreshAheadCache.update_user.
    pose proof (StoreFacts.update_cases (user_name u) (user_email u) (user_age u) i (db w))
      as Hupd.
    destruct (Pg.update_by_id _ _ _ _ (db w)) as [[[row|]|e] pg']; cbn.
    + destruct Hupd as (Hrow & Hex & Hu).
      apply (WriteThroughMore.coherent_update i row _ _ (db w));
        [rewrite Hrow; reflexivity | | |]; assumption.
    + destruct Hupd as [_ Hu].
      apply (WriteThroughMore.coherent_same_rows _ (db w)); assumption.
    + apply (WriteThroughMore.coherent_same_rows _ (db w)); assumption.
  - unfold delete_user, RefreshAheadCache.delete_user.
    pose proof (StoreFacts.delete_cases i (db w)) as Hdel.
    destruct (Pg.delete_by_id (Some i) (db w)) as [[[|n]|e] pg']; cbn.
    + destruct Hdel as [Hn Hu].
      apply (WriteThroughMore.coherent_delete_none i _ (db w)); auto.
    + destruct Hdel as [_ Hu].
      apply (WriteThroughMore.coherent_delete i _ (db w)); assumption.
    + apply (WriteThroughMore.coherent_same_rows _ (db w)); assumption.
  - exact Hc.
  - exact Hc.
  - destruct (tick_fields w) as (_ & _ & -> & _). rewrite tick_redis.
    apply (scan_fields (elements (hot_items w)) w (NoDup_elements _)), Hc.
  - apply WriteThroughMore.coherent_elapse, Hc.
Qed.

(** X16: the refresh-ahead service keeps its cache coherent with the
    table as long as the table is changed through the service only: if
    every cached user is the row stored under that identity, this is
    still so after any sequence of requests, refresh ticks and
    expirations; in particular a proactive refresh never writes
    anything but the current row. *)
Theorem refresh_ahead_keeps_cache_coherent (w : World) (evs : list event) :
  coherent (redis w) (db w) -> coherent (redis (run w evs)) (db (run w evs)).
Proof.
  revert w. induction evs as [|ev evs IH]; intros w H; [exact H|].
  apply (IH (step w ev)), refresh_ahead_step_coherent, H.
Qed.

Lemma refresh_ahead_keeps_cache_coherent_witness :
  let w := run Scenarios.RA.fresh
               [GetUser 7; GetUser 7; GetUser 7; UpdateUser 7 (Scenarios.alice_aged 26);
                Elapse 50; RefreshTick; DeleteUser 8] in
  coherent (redis w) (db w) /\
  redis w !! 7 = Some (Scenarios.alice_aged 26, CACHE_TTL).
Proof.
  split; [|vm_compute; reflexivity].
  apply (refresh_ahead_keeps_cache_coherent Scenarios.RA.fresh).
  intros k u. unfold Redis.get. cbn. rewrite lookup_empty. discriminate.
Defined.

(** *** The worker over time *)

Lemma elapse_lookup s k u t (m : Redis.keyspace) :
  m !! k = Some (u, t) -> s < t -> Redis.elapse s m !! k = Some (u, t - s).
Proof.
  intros Hk Hlt. unfold Redis.elapse. rewrite lookup_omap, Hk. cbn.
  assert ((0 <? t - s) = true) as -> by (apply Z.ltb_lt; lia). reflexivity.
Qed.

Lemma refresh_item_fresh_enough w j :
  0 < Redis.ttl j (redis w) ->
  below_refresh_threshold (Redis.ttl j (redis w)) = false ->
  RefreshAheadCache.refresh_item w j = w.
Proof.
  intros Hpos Hhigh. unfold RefreshAheadCache.refresh_item.
  rewrite (proj2 (Z.leb_gt _ _) Hpos), Hhigh. reflexivity.
Qed.

Lemma turn_keeps_alive k row w :
  alive k row 15 w -> alive k row 15 (_refresh_worker_turn w).
Proof.
  intros (Hhot & [Hrow Hint] & Hf & t & Hk & Ht).
  unfold _refresh_worker_turn. cbn [step].
  set (w0 := set_redis (Redis.elapse REFRESH_INTERVAL (redis w)) w).
  assert (Hk0 : redis w0 !! k = Some (Pg.user_of_row row, t - REFRESH_INTERVAL)).
  { subst w0. cbn. apply elapse_lookup; [exact Hk | unfold REFRESH_INTERVAL; lia]. }
  assert (Hhot0 : k ∈ hot_items w0) by exact Hhot.
  destruct (RefreshAheadFacts.tick_at w0 k Hhot0) as (wa & Hr & Hh & Hu & Hfa & Hr' & Hh').
  destruct (tick_fields w0) as (_ & _ & Hdb & _).
  destruct (RefreshAheadFacts.scan_db (elements (hot_items w0)) w0) as [Husers Hfaults].
  assert (Httl : Redis.ttl k (redis wa) = t - REFRESH_INTERVAL).
  { unfold Redis.ttl. rewrite Hr, Hk0. reflexivity. }
  assert (Hpos : 0 < Redis.ttl k (redis wa)) by (rewrite Httl; unfold REFRESH_INTERVAL; lia).
  split; [|split; [|split]].
  - apply Hh'. destruct (RefreshAheadFacts.refresh_item_keeps wa k Hpos) as [-> _]. exact Hh.
  - split; [rewrite Hdb, Husers; exact Hrow | exact Hint].
  - rewrite Hdb. apply Hfaults. exact Hf.
  - destruct (below_refresh_threshold (Redis.ttl k (redis wa))) eqn:Hlow.
    + exists CACHE_TTL. split; [|unfold CACHE_TTL; lia].
      fold (tick w0). rewrite Hr'.
      apply RefreshAheadFacts.refresh_item_reloads;
        [exact Hpos | exact Hlow | auto | exact Hint |].
      rewrite Hu. exact Hrow.
    + exists (t - REFRESH_INTERVAL). fold (tick w0).
      rewrite Hr', (refresh_item_fresh_enough wa k Hpos Hlow), Hr. split; [exact Hk0|].
      revert Hlow. rewrite Httl. unfold below_refresh_threshold, CACHE_TTL,
        REFRESH_THRESHOLD_DEN, REFRESH_THRESHOLD_NUM. intros Hlow.
      apply Z.ltb_ge in Hlow. lia.
Qed.

(** X17: the refresh worker keeps a hot entry alive.  If a key is hot,
    its row is in the table, the store does not fail, and the cached
    copy is that row with at least 15 seconds left, then after any
    number of turns of the worker (sleep [REFRESH_INTERVAL], scan) the
    key is still hot and still cached as that row with at least 15
    seconds left: a read of it never misses. *)
Theorem hot_entry_never_expires (w : World) (k : Z) (row : Pg.Row) (turns : nat) :
  alive k row 15 w ->
  alive k row 15 (_refresh_worker turns w) /\
  Redis.get k (redis (_refresh_worker turns w)) = Some (Pg.user_of_row row).
Proof.
  intros H.
  assert (Ha : alive k row 15 (_refresh_worker turns w)).
  { revert w H. induction turns as [|n IH]; intros w H; [exact H|].
    cbn [_refresh_worker]. apply IH, turn_keeps_alive, H. }
  split; [exact Ha|].
  destruct Ha as (_ & _ & _ & t & Hk & _). unfold Redis.get. rewrite Hk. reflexivity.
Qed.

Lemma hot_entry_never_expires_witness :
  let w := run Scenarios.RA.fresh [GetUser 7; GetUser 7; GetUser 7] in
  Redis.get 7 (redis (_refresh_worker 100 w)) = Some (Pg.user_of_row Scenarios.alice) /\
  Redis.get 7 (redis (run w (replicate 100 (Elapse REFRESH_INTERVAL)))) = None.
Proof.
  intros w. split; [|vm_compute; reflexivity].
  apply (hot_entry_never_expires w 7 Scenarios.alice 100).
  split; [vm_compute; reflexivity|]. split; [split; reflexivity|]. split; [reflexivity|].
  exists 60. split; [vm_compute; reflexivity | lia].
Defined.

End RefreshAheadMore.
